(** * Fund metrics of [Formeln.py]

    The module computes risk and performance figures from monthly return
    arrays with numpy.  Every function of the module is translated once,
    over an abstract arithmetic ([Arith]) that offers what the source uses
    of numpy's float64: the four operations, comparisons that are false on
    NaN, the NaN test and [np.nan_to_num].  Two arithmetics instantiate it:

    - [B64]: IEEE-754 binary64 as specified by [SpecFloat] (prec 53,
      emax 1024, round to nearest even).  This is what the program computes,
      and it is where concrete inputs are evaluated.
    - [Exact]: rationals extended by NaN and the two infinities, with no
      rounding, overflow or underflow.  It is used for the order properties
      that hold of the formulas themselves.

    numpy's reductions are written out as numpy performs them (pairwise
    summation for [np.sum], left to right for [np.prod], two-pass variance).
    Two library calls have a rounding that the source does not fix: the
    inner product behind [np.cov], which is taken left to right, and [pow]
    of the C library, which is a parameter ([Pow]).  What is evaluated
    through them below does not depend on that choice. *)

From Stdlib Require Import ZArith QArith Lqa List Bool Lia SpecFloat.
Import ListNotations.

Close Scope Q_scope.
Open Scope nat_scope.

(** ** The arithmetic interface *)

Class Arith (F : Type) : Type := {
  of_Z : Z -> F;               (* a Python int, or a float with that value *)
  nan : F;                     (* np.nan *)
  fadd : F -> F -> F;
  fsub : F -> F -> F;
  fmul : F -> F -> F;
  fdiv : F -> F -> F;
  fisnan : F -> bool;          (* np.isnan *)
  feqb : F -> F -> bool;       (* ==, False when an operand is NaN *)
  fltb : F -> F -> bool;       (* <,  False when an operand is NaN *)
  fleb : F -> F -> bool;       (* <=, False when an operand is NaN *)
  nan_to_num : F -> F          (* np.nan_to_num(x, nan=0) on one element *)
}.

(** [np.sqrt] on one element. *)
Class Sqrt (F : Type) : Type := fsqrt : F -> F.

(** The [**] of two floats, that is [pow] of the C library. *)
Class Pow (F : Type) : Type := fpow : F -> F -> F.

Declare Scope flt_scope.
Delimit Scope flt_scope with flt.
Infix "+" := fadd : flt_scope.
Infix "-" := fsub : flt_scope.
Infix "*" := fmul : flt_scope.
Infix "/" := fdiv : flt_scope.
Infix "==" := feqb (at level 70, no associativity) : flt_scope.
Infix "<=?" := fleb : flt_scope.
Infix "<?" := fltb : flt_scope.

(** ** numpy primitives *)

Section Numpy.
Context {F : Type} {arith : Arith F}.

Definition zero : F := of_Z 0.
Definition one : F := of_Z 1.
Definition of_nat (n : nat) : F := of_Z (Z.of_nat n).

Definition notnan (x : F) : bool := negb (fisnan x).

(** Elementwise binary operation on two lists that have the same length. *)
Fixpoint map2 {A B C : Type} (f : A -> B -> C) (a : list A) (b : list B) : list C :=
  match a, b with
  | x :: a', y :: b' => f x y :: map2 f a' b'
  | _, _ => []
  end.

(** Broadcasting of two one-dimensional operands: equal shapes pair up, a
    one-element operand is stretched, anything else raises ValueError
    ([None]). *)
Definition broadcast {A B : Type} (a : list A) (b : list B) : option (list (A * B)) :=
  match a, b with
  | _, [y] => Some (map (fun x => (x, y)) a)
  | [x], _ => Some (map (fun y => (x, y)) b)
  | _, _ => if length a =? length b then Some (combine a b) else None
  end.

(** The same date of the two series, the other way round. *)
Definition swap_pair {A B : Type} (p : A * B) : B * A := (snd p, fst p).

(** [a[mask]] with a boolean mask: the shapes must agree (IndexError
    otherwise, [None]). *)
Definition mask_select {A : Type} (a : list A) (mask : list bool) : option (list A) :=
  if length a =? length mask
  then Some (map fst (filter snd (combine a mask)))
  else None.

(** [mask.sum()] of a boolean array. *)
Definition count_true (mask : list bool) : nat := length (filter (fun b => b) mask).

(** [np.maximum], [np.fmax] and [np.fmin] on one pair: the first propagates
    NaN, the other two ignore it. *)
Definition maximum (a b : F) : F := if (b <=? a)%flt || fisnan a then a else b.
Definition fmax (a b : F) : F := if (b <=? a)%flt || fisnan b then a else b.
Definition fmin (a b : F) : F := if (a <=? b)%flt || fisnan b then a else b.

(** [np.clip(x, lo, hi)] on one element: NaN stays NaN. *)
Definition clip (x lo hi : F) : F :=
  let y := if fisnan x then x else if (lo <? x)%flt then x else lo in
  if fisnan y then y else if (y <? hi)%flt then y else hi.

(** *** [np.sum]: pairwise summation *)

(** Fewer than eight elements: [res = 0.; for i: res += a[i]]. *)
Definition sum_loop (res : F) (a : list F) : F := fold_left fadd a res.

(** The eight accumulators [r[j] += a[i + j]] over [blocks] blocks of eight. *)
Fixpoint unrolled (blocks : nat) (r a : list F) : list F :=
  match blocks with
  | O => r
  | S k => unrolled k (map2 fadd r (firstn 8 a)) (skipn 8 a)
  end.

Definition tree8 (r : list F) : F :=
  match r with
  | [r0; r1; r2; r3; r4; r5; r6; r7] =>
      (((r0 + r1) + (r2 + r3)) + ((r4 + r5) + (r6 + r7)))%flt
  | _ => nan
  end.

(** Between 8 and 128 elements: the unrolled loop over the full blocks of
    eight, the tree of the accumulators, then the rest one by one. *)
Definition block_sum (a : list F) : F :=
  let n := length a in
  let full := n - n mod 8 in
  let r := unrolled (full / 8 - 1) (firstn 8 a) (skipn 8 a) in
  sum_loop (tree8 r) (skipn full a).

(** More than 128 elements: split at [n / 2] rounded down to a multiple of
    eight.  The recursion is on [fuel]; [pairwise_sum] passes the length,
    which is always enough. *)
Fixpoint pairwise_sum_fuel (fuel : nat) (a : list F) : F :=
  let n := length a in
  if n <? 8 then sum_loop zero a
  else if n <=? 128 then block_sum a
  else
    match fuel with
    | O => block_sum a
    | S fuel' =>
        let n2 := n / 2 - (n / 2) mod 8 in
        (pairwise_sum_fuel fuel' (firstn n2 a) + pairwise_sum_fuel fuel' (skipn n2 a))%flt
    end.

Definition pairwise_sum (a : list F) : F := pairwise_sum_fuel (length a) a.

(** [np.sum(a)], that is [np.add.reduce] on a contiguous array: the result
    starts at the identity 0 and the inner loop adds the pairwise sum of the
    whole array. *)
Definition np_sum (a : list F) : F := (zero + pairwise_sum a)%flt.

(** [np.prod(a)]: [np.multiply.reduce] from the identity 1, left to right. *)
Definition np_prod (a : list F) : F := fold_left fmul a one.

(** [ufunc.accumulate]: [out[0] = a[0]; out[i] = op(out[i-1], a[i])]. *)
Fixpoint accumulate_from (op : F -> F -> F) (acc : F) (a : list F) : list F :=
  match a with
  | [] => []
  | x :: a' => let acc' := op acc x in acc' :: accumulate_from op acc' a'
  end.

Definition accumulate (op : F -> F -> F) (a : list F) : list F :=
  match a with
  | [] => []
  | x :: a' => x :: accumulate_from op x a'
  end.

Definition np_cumprod (a : list F) : list F := accumulate fmul a.

(** [np.nanmax(a)] and [np.nanmin(a)] of a float array:
    [np.fmax.reduce(a)], which starts from the first element.  numpy raises
    on an empty array; both callers return before that, [nan] stands for it. *)
Definition np_nanmax (a : list F) : F :=
  match a with
  | [] => nan
  | x :: a' => fold_left fmax a' x
  end.

Definition np_nanmin (a : list F) : F :=
  match a with
  | [] => nan
  | x :: a' => fold_left fmin a' x
  end.

(** [np.var(a, ddof=ddof)]: mean as sum over count, squared deviations, their
    sum over [max(count - ddof, 0)]. *)
Definition np_var (ddof : nat) (a : list F) : F :=
  let rcount := length a in
  let arrmean := (np_sum a / of_nat rcount)%flt in
  let x := map (fun v => let d := (v - arrmean)%flt in (d * d)%flt) a in
  (np_sum x / of_nat (rcount - ddof))%flt.

(** [np.nanvar(a, ddof=ddof)]: NaN entries are replaced by 0 and masked out
    of the count and of the deviations; a degree of freedom that is not
    positive gives NaN. *)
Definition np_nanvar (ddof : nat) (a : list F) : F :=
  let arr := map (fun v => if fisnan v then zero else v) a in
  let cnt := length (filter notnan a) in
  let avg := (np_sum arr / of_nat cnt)%flt in
  let dev := map (fun v => if fisnan v then zero else (v - avg)%flt) a in
  let sqr := map (fun d => (d * d)%flt) dev in
  let dof := (Z.of_nat cnt - Z.of_nat ddof)%Z in
  let var := (np_sum sqr / of_Z dof)%flt in
  if (dof <=? 0)%Z then nan else var.

(** The inner product behind [np.cov] ([np.dot], delegated to BLAS), taken
    left to right. *)
Definition np_dot (u v : list F) : F := sum_loop zero (map2 fmul u v).

(** [np.cov(x, y, ddof=1)] of two one-dimensional arrays of the same length:
    the rows are centred by their means and the matrix of inner products is
    multiplied by [1 / fact].  Entries (0,0), (0,1) and (1,1). *)
Definition centred (x : list F) : list F :=
  let avg := (np_sum x / of_nat (length x))%flt in
  map (fun v => (v - avg)%flt) x.

(** [np.true_divide(1, fact)] with [fact = n - ddof], set to 0 when it is
    not positive. *)
Definition cov_fact (n : nat) : F := (one / of_nat (n - 1))%flt.

Definition np_cov (x y : list F) : F * F * F :=
  let dx := centred x in
  let dy := centred y in
  let k := cov_fact (length x) in
  ((np_dot dx dx * k)%flt, (np_dot dx dy * k)%flt, (np_dot dy dy * k)%flt).

Definition np_cov01 (x y : list F) : F := snd (fst (np_cov x y)).

Section WithSqrt.
Context {sqrt_F : Sqrt F}.

Definition np_std (ddof : nat) (a : list F) : F := fsqrt (np_var ddof a).
Definition np_nanstd (ddof : nat) (a : list F) : F := fsqrt (np_nanvar ddof a).

(** [np.corrcoef(x, y)[0, 1]]: the covariance divided by the two standard
    deviations in turn, then clipped to [-1, 1]. *)
Definition np_corrcoef01 (x y : list F) : F :=
  let '(c00, c01, c11) := np_cov x y in
  clip ((c01 / fsqrt c00) / fsqrt c11)%flt (of_Z (-1)) one.

End WithSqrt.
End Numpy.

(** ** The metrics of [Formeln.py] *)

(** The risk-free rate of [sharpe_ratio] is a scalar or an array
    ([isinstance(risk_free_rate, np.ndarray) or isinstance(..., list)]). *)
Inductive risk_free (F : Type) : Type :=
  | Scalar (r : F)
  | Series (rs : list F).
Arguments Scalar {F} r.
Arguments Series {F} rs.

Section Metrics.
Context {F : Type} {arith : Arith F}.

Section WithPow.
Context {pow_F : Pow F}.

Definition annualized_return (returns : list F) : F :=
  let returns := filter notnan returns in
  if length returns =? 0 then nan
  else
    let cum_return := np_prod (map (fun r => (one + r)%flt) returns) in
    (fpow cum_return (of_Z 12 / of_nat (length returns)) - one)%flt.

End WithPow.

Definition maximum_drawdown (returns : list F) : F :=
  if forallb fisnan returns then nan
  else
    let cum_returns := np_cumprod (map (fun r => (one + nan_to_num r)%flt) returns) in
    let running_max := accumulate maximum cum_returns in
    let drawdowns := map2 (fun c m => (one - c / m)%flt) cum_returns running_max in
    np_nanmax drawdowns.

(** The two sums of [omega_ratio], on the returns that are left after the
    NaN filter. *)
Definition omega_gains (returns : list F) (threshold : F) : F :=
  np_sum (map (fun r => maximum (r - threshold)%flt zero) returns).

Definition omega_losses (returns : list F) (threshold : F) : F :=
  np_sum (map (fun r => maximum (threshold - r)%flt zero) returns).

Definition omega_ratio (returns : list F) (threshold : F) : F :=
  let returns := filter notnan returns in
  if length returns =? 0 then nan
  else
    let gains := omega_gains returns threshold in
    let losses := omega_losses returns threshold in
    if (losses == zero)%flt then of_Z 1000
    else (gains / losses)%flt.

Definition worst_month (returns : list F) : F :=
  if forallb fisnan returns then nan else np_nanmin returns.

(** [valid = ~(np.isnan(returns) | np.isnan(benchmark_returns))] *)
Definition valid_mask (pairs : list (F * F)) : list bool :=
  map (fun p => negb (fisnan (fst p) || fisnan (snd p))) pairs.

Definition beta (returns benchmark_returns : list F) : option F :=
  match broadcast returns benchmark_returns with
  | None => None
  | Some pairs =>
      let valid := valid_mask pairs in
      if count_true valid <=? 1 then Some nan
      else
        match mask_select returns valid, mask_select benchmark_returns valid with
        | Some returns_valid, Some benchmark_valid =>
            let cov := np_cov01 returns_valid benchmark_valid in
            let var := np_var 1 benchmark_valid in
            if (var == zero)%flt then Some nan
            else Some (cov / var)%flt
        | _, _ => None
        end
  end.

Section WithSqrt.
Context {sqrt_F : Sqrt F}.

Definition volatility (returns : list F) : F :=
  (np_nanstd 1 returns * fsqrt (of_Z 12))%flt.

Definition tracking_error (returns benchmark_returns : list F) : option F :=
  match broadcast returns benchmark_returns with
  | None => None
  | Some pairs =>
      let active_returns := map (fun p => (fst p - snd p)%flt) pairs in
      let active_returns := filter notnan active_returns in
      if length active_returns <=? 1 then Some nan
      else Some (np_std 1 active_returns * fsqrt (of_Z 12))%flt
  end.

(** Pearson correlation on the dates selected by [valid], the common tail of
    [up_correlation] and [down_correlation]. *)
Definition correlation_on (returns benchmark_returns : list F) (valid : list bool) : option F :=
  if count_true valid <=? 1 then Some nan
  else
    match mask_select returns valid, mask_select benchmark_returns valid with
    | Some returns_valid, Some benchmark_valid =>
        Some (np_corrcoef01 returns_valid benchmark_valid)
    | _, _ => None
    end.

Definition up_correlation (returns benchmark_returns : list F) : option F :=
  match broadcast returns benchmark_returns with
  | None => None
  | Some pairs =>
      let valid := map (fun p => (zero <? snd p)%flt && negb (fisnan (fst p) || fisnan (snd p))) pairs in
      correlation_on returns benchmark_returns valid
  end.

Definition down_correlation (returns benchmark_returns : list F) : option F :=
  match broadcast returns benchmark_returns with
  | None => None
  | Some pairs =>
      let valid := map (fun p => (snd p <? zero)%flt && negb (fisnan (fst p) || fisnan (snd p))) pairs in
      correlation_on returns benchmark_returns valid
  end.

Section WithSqrtPow.
Context {pow_F : Pow F}.

(** The last two lines of [sharpe_ratio]. *)
Definition sharpe_of (ann_excess_return vol : F) : F :=
  if (vol == zero)%flt || fisnan vol then nan
  else (ann_excess_return / vol)%flt.

Definition sharpe_ratio (returns : list F) (risk_free_rate : risk_free F) : option F :=
  match risk_free_rate with
  | Series rs =>
      match broadcast returns rs with
      | None => None
      | Some pairs =>
          let excess_returns := map (fun p => (fst p - snd p)%flt) pairs in
          Some (sharpe_of (annualized_return excess_returns) (volatility excess_returns))
      end
  | Scalar r =>
      let ann_return := annualized_return returns in
      let ann_excess_return := (ann_return - r)%flt in
      Some (sharpe_of ann_excess_return (volatility returns))
  end.

Definition r_squared (returns benchmark_returns : list F) : option F :=
  match broadcast returns benchmark_returns with
  | None => None
  | Some pairs =>
      let valid := valid_mask pairs in
      if count_true valid <=? 1 then Some nan
      else
        match mask_select returns valid, mask_select benchmark_returns valid with
        | Some returns_valid, Some benchmark_valid =>
            let corr := np_corrcoef01 returns_valid benchmark_valid in
            Some (fpow corr (of_Z 2))
        | _, _ => None
        end
  end.

End WithSqrtPow.
End WithSqrt.
End Metrics.

(** [x ** y] where only the exponent 1 is decided: [pow(x, 1.0)] is [x];
    NaN stands for every other exponent, of which nothing is claimed. *)
Definition pow_unit_exponent {F : Type} {arith : Arith F} : Pow F :=
  fun x y => if (y == one)%flt then x else nan.

(** ** The relative metrics in the words of the specification

    The second definitions below follow the specification: they first pair
    the two series date by date, keep the usable pairs (both values present)
    and then apply the statistic.  They are compared with the functions of
    the source further down. *)

Section SpecWords.
Context {F : Type} {arith : Arith F}.

(** The dates at which both series have a value. *)
Definition usable_pairs (fund benchmark : list F) : list (F * F) :=
  filter (fun p => notnan (fst p) && notnan (snd p)) (combine fund benchmark).

Definition sample_mean (a : list F) : F := (np_sum a / of_nat (length a))%flt.

(** Sample variance, with the [n - 1] denominator. *)
Definition sample_variance (a : list F) : F :=
  let mean := sample_mean a in
  (np_sum (map (fun v => ((v - mean) * (v - mean))%flt) a) / of_nat (length a - 1))%flt.

(** Sample covariance with the [n - 1] denominator, as [np.cov] scales it. *)
Definition sample_covariance (x y : list F) : F :=
  let mx := sample_mean x in
  let my := sample_mean y in
  (np_dot (map (fun v => (v - mx)%flt) x) (map (fun v => (v - my)%flt) y)
   * cov_fact (length x))%flt.

Definition beta_spec (fund benchmark : list F) : F :=
  let pairs := usable_pairs fund benchmark in
  if length pairs <=? 1 then nan
  else
    let var := sample_variance (map snd pairs) in
    if (var == zero)%flt then nan
    else (sample_covariance (map fst pairs) (map snd pairs) / var)%flt.

Section WithSqrt.
Context {sqrt_F : Sqrt F}.

Definition sample_std (a : list F) : F := fsqrt (sample_variance a).

Definition tracking_error_spec (fund benchmark : list F) : F :=
  let active := map (fun p => (fst p - snd p)%flt) (usable_pairs fund benchmark) in
  if length active <=? 1 then nan
  else (sample_std active * fsqrt (of_Z 12))%flt.

End WithSqrt.
End SpecWords.

(** ** binary64 *)

Module B64.

Definition prec : Z := 53.
Definition emax : Z := 1024.

(** A Python int as a float64 (round to nearest even). *)
Definition b64_of_Z (z : Z) : spec_float := binary_normalize prec emax z 0 false.

Definition b64_isnan (x : spec_float) : bool :=
  match x with S754_nan => true | _ => false end.

(** [np.nan_to_num(x, nan=0)]: NaN becomes 0, an infinity the largest finite
    float of its sign. *)
Definition b64_nan_to_num (x : spec_float) : spec_float :=
  match x with
  | S754_nan => b64_of_Z 0
  | S754_infinity false => SFmax_float prec emax
  | S754_infinity true => SFopp (SFmax_float prec emax)
  | _ => x
  end.

#[global] Instance b64_arith : Arith spec_float := {|
  of_Z := b64_of_Z;
  nan := S754_nan;
  fadd := SFadd prec emax;
  fsub := SFsub prec emax;
  fmul := SFmul prec emax;
  fdiv := SFdiv prec emax;
  fisnan := b64_isnan;
  feqb := SFeqb;
  fltb := SFltb;
  fleb := SFleb;
  nan_to_num := b64_nan_to_num
|}.

#[global] Instance b64_sqrt : Sqrt spec_float := SFsqrt prec emax.

(** A decimal literal [n / d] of the source, as Python reads it: the float
    nearest to the quotient ([n] and [d] are exact floats). *)
Definition dec (n d : Z) : spec_float := SFdiv prec emax (b64_of_Z n) (b64_of_Z d).

(** [2 ** e] for an exponent in the normal range. *)
Definition pow2 (e : Z) : spec_float := S754_finite false 4503599627370496 (e - 52).

Definition is_inf (x : spec_float) : bool :=
  match x with S754_infinity _ => true | _ => false end.

Definition is_zero (x : spec_float) : bool :=
  match x with S754_zero _ => true | _ => false end.

(** A return observation: a number or the missing marker, never an infinity. *)
Definition is_obs (x : spec_float) : bool := negb (is_inf x).

(** [b] is [-a], where the sign of a zero is left open: an exact
    cancellation gives +0 whichever way round it is computed. *)
Definition opp_rel (a b : spec_float) : Prop :=
  b = SFopp a \/ (is_zero a = true /\ is_zero b = true).

End B64.

(** ** Exact arithmetic *)

Module Exact.

(** A rational, an infinity with its sign, or NaN. *)
Inductive xq : Type :=
  | XNaN
  | XInf (neg : bool)
  | XFin (q : Q).

Definition q_neg (q : Q) : bool := (Qnum q <? 0)%Z.
Definition q_zero (q : Q) : bool := (Qnum q =? 0)%Z.

Definition x_add (a b : xq) : xq :=
  match a, b with
  | XNaN, _ | _, XNaN => XNaN
  | XInf s, XInf s' => if Bool.eqb s s' then XInf s else XNaN
  | XInf s, XFin _ => XInf s
  | XFin _, XInf s => XInf s
  | XFin p, XFin q => XFin (Qred (p + q))
  end.

Definition x_sub (a b : xq) : xq :=
  match a, b with
  | XNaN, _ | _, XNaN => XNaN
  | XInf s, XInf s' => if Bool.eqb s s' then XNaN else XInf s
  | XInf s, XFin _ => XInf s
  | XFin _, XInf s => XInf (negb s)
  | XFin p, XFin q => XFin (Qred (p - q))
  end.

Definition x_mul (a b : xq) : xq :=
  match a, b with
  | XNaN, _ | _, XNaN => XNaN
  | XInf s, XInf s' => XInf (xorb s s')
  | XInf s, XFin q => if q_zero q then XNaN else XInf (xorb s (q_neg q))
  | XFin p, XInf s => if q_zero p then XNaN else XInf (xorb (q_neg p) s)
  | XFin p, XFin q => XFin (Qred (p * q))
  end.

Definition x_div (a b : xq) : xq :=
  match a, b with
  | XNaN, _ | _, XNaN => XNaN
  | XInf _, XInf _ => XNaN
  | XInf s, XFin q => XInf (xorb s (q_neg q))
  | XFin _, XInf _ => XFin 0
  | XFin p, XFin q =>
      if q_zero q then (if q_zero p then XNaN else XInf (q_neg p))
      else XFin (Qred (p / q))
  end.

Definition x_compare (a b : xq) : option comparison :=
  match a, b with
  | XNaN, _ | _, XNaN => None
  | XInf s, XInf s' =>
      Some (match s, s' with
            | true, false => Lt
            | false, true => Gt
            | _, _ => Eq
            end)
  | XInf s, XFin _ => Some (if s then Lt else Gt)
  | XFin _, XInf s => Some (if s then Gt else Lt)
  | XFin p, XFin q => Some (p ?= q)%Q
  end.

Definition x_eqb (a b : xq) : bool :=
  match x_compare a b with Some Eq => true | _ => false end.
Definition x_ltb (a b : xq) : bool :=
  match x_compare a b with Some Lt => true | _ => false end.
Definition x_leb (a b : xq) : bool :=
  match x_compare a b with Some (Lt | Eq) => true | _ => false end.

Definition x_isnan (a : xq) : bool :=
  match a with XNaN => true | _ => false end.

(** [np.nan_to_num(x, nan=0)]: exact arithmetic has no largest finite
    number, an infinity is left as it is. *)
Definition x_nan_to_num (a : xq) : xq :=
  match a with XNaN => XFin 0 | _ => a end.

#[global] Instance exact_arith : Arith xq := {|
  of_Z := fun z => XFin (inject_Z z);
  nan := XNaN;
  fadd := x_add;
  fsub := x_sub;
  fmul := x_mul;
  fdiv := x_div;
  fisnan := x_isnan;
  feqb := x_eqb;
  fltb := x_ltb;
  fleb := x_leb;
  nan_to_num := x_nan_to_num
|}.

(** A return observation: a rational or the missing marker. *)
Definition is_obs (a : xq) : bool :=
  match a with XInf _ => false | _ => true end.

(** [a] is the rational [q], up to the representation of the fraction. *)
Definition is_fin (a : xq) (q : Q) : Prop :=
  match a with XFin p => (p == q)%Q | _ => False end.

(** [a <= b] between two rationals, and [0 <= a <= b]. *)
Definition fin_le (a b : xq) : Prop :=
  match a, b with XFin p, XFin q => (p <= q)%Q | _, _ => False end.

Definition le_from_zero (a b : xq) : Prop := fin_le (XFin 0) a /\ fin_le a b.

(** A factor [1 + r] of a return above -100%, of a return of at least
    -100%, and of a return that is not negative. *)
Definition pos_fin (a : xq) : Prop := exists q, is_fin a q /\ (0 < q)%Q.
Definition nonneg_fin (a : xq) : Prop := exists q, is_fin a q /\ (0 <= q)%Q.
Definition ge1_fin (a : xq) : Prop := exists q, is_fin a q /\ (1 <= q)%Q.

(** A drawdown in [0, 1]. *)
Definition in_unit (a : xq) : Prop := exists q, is_fin a q /\ (0 <= q)%Q /\ (q <= 1)%Q.

End Exact.

(** ** Further definitions, for the properties beyond the claims *)

(** A float that is NaN or not below zero. *)
Definition nonneg_or_nan (x : spec_float) : Prop :=
  B64.b64_isnan x = true \/ SFleb (B64.b64_of_Z 0) x = true.

(** A float that is a number: neither NaN nor an infinity. *)
Definition is_number (x : spec_float) : bool :=
  negb (B64.b64_isnan x) && negb (B64.is_inf x).

(** The sum of a list of rationals. *)
Definition qsum (qs : list Q) : Q := fold_right Qplus 0%Q qs.

(** The rational that a float64 stands for, 0 for NaN and the infinities. *)
Definition b64_value (x : spec_float) : Q :=
  match x with
  | S754_finite s m e =>
      ((if s then inject_Z (-1) else inject_Z 1) * inject_Z (Zpos m) * Qpower 2 e)%Q
  | _ => 0%Q
  end.

(** The sample mean, the sample variance and the sample covariance
    (denominator n - 1) of rationals, as the textbook has them. *)
Definition q_mean (qs : list Q) : Q :=
  (qsum qs / inject_Z (Z.of_nat (length qs)))%Q.

Definition q_variance (qs : list Q) : Q :=
  (qsum (map (fun q => (q - q_mean qs) * (q - q_mean qs)) qs)
   / inject_Z (Z.of_nat (length qs - 1)))%Q.

(** The rational behind a number of exact arithmetic, 0 for NaN and the
    infinities. *)
Definition xval (a : Exact.xq) : Q :=
  match a with Exact.XFin q => q | _ => 0%Q end.

(** The sum of the rationals of a list of exact numbers. *)
Definition xsum (l : list Exact.xq) : Q := qsum (map xval l).

(** A rational of exact arithmetic. *)
Definition finite (a : Exact.xq) : Prop := exists q, Exact.is_fin a q.

(** * Facts about the numpy primitives, in any arithmetic *)

Section ListFacts.
Context {A B C : Type}.

Lemma map2_length (f : A -> B -> C) (a : list A) (b : list B) :
  length a = length b -> length (map2 f a b) = length a.
Proof.
  revert b; induction a as [|x a IH]; intros [|y b] E; simpl in *; try congruence.
  now rewrite IH by congruence.
Qed.

Lemma broadcast_same_length (a : list A) (b : list B) :
  length a = length b -> broadcast a b = Some (combine a b).
Proof.
  intros E. unfold broadcast.
  destruct a as [|x [|x' a]], b as [|y [|y' b]]; simpl in E; try discriminate; try reflexivity.
  injection E as E. simpl. now rewrite E, Nat.eqb_refl.
Qed.

End ListFacts.

Section Forall2Facts.
Context {A B : Type} (R : A -> B -> Prop).

Lemma Forall2_firstn (n : nat) (a : list A) (b : list B) :
  Forall2 R a b -> Forall2 R (firstn n a) (firstn n b).
Proof.
  intros H; revert n; induction H; intros [|n]; simpl; constructor; auto.
Qed.

Lemma Forall2_skipn (n : nat) (a : list A) (b : list B) :
  Forall2 R a b -> Forall2 R (skipn n a) (skipn n b).
Proof.
  intros H; revert n; induction H; intros [|n]; simpl; auto.
Qed.

Lemma Forall2_same_length (a : list A) (b : list B) :
  Forall2 R a b -> length a = length b.
Proof. induction 1; simpl; congruence. Qed.

End Forall2Facts.

(** numpy's summation applies [+] to the elements of the array and to
    nothing else, so a relation that [+] respects carries over from the
    elements to the sums. *)
Section SumRel.
Context {F : Type} {arith : Arith F}.
Variable R : F -> F -> Prop.
Hypothesis R_zero : R zero zero.
Hypothesis R_add : forall x x' y y', R x x' -> R y y' -> R (x + y)%flt (x' + y')%flt.

Lemma sum_loop_rel (a b : list F) (x y : F) :
  Forall2 R a b -> R x y -> R (sum_loop x a) (sum_loop y b).
Proof.
  intros H; revert x y; induction H as [|p q a b Hpq H IH]; intros u v Huv; simpl.
  - exact Huv.
  - apply IH. now apply R_add.
Qed.

Lemma map2_add_rel (r r' a a' : list F) :
  Forall2 R r r' -> Forall2 R a a' -> Forall2 R (map2 fadd r a) (map2 fadd r' a').
Proof.
  intros H; revert a a'; induction H; intros a a' Ha; simpl.
  - constructor.
  - destruct Ha; constructor; auto.
Qed.

Lemma unrolled_rel (k : nat) (r r' a a' : list F) :
  Forall2 R r r' -> Forall2 R a a' -> Forall2 R (unrolled k r a) (unrolled k r' a').
Proof.
  revert r r' a a'; induction k as [|k IH]; intros r r' a a' Hr Ha; cbn [unrolled]; auto.
  apply IH.
  - apply map2_add_rel; auto. now apply Forall2_firstn.
  - now apply Forall2_skipn.
Qed.

Lemma unrolled_length (k : nat) (r a : list F) :
  length r = 8 -> 8 * k <= length a -> length (unrolled k r a) = 8.
Proof.
  revert r a; induction k as [|k IH]; intros r a Hr Ha; cbn [unrolled]; auto.
  apply IH.
  - rewrite map2_length; auto. rewrite length_firstn. lia.
  - rewrite length_skipn. lia.
Qed.

Lemma tree8_rel (r r' : list F) :
  length r = 8 -> Forall2 R r r' -> R (tree8 r) (tree8 r').
Proof.
  intros L H.
  do 8 (destruct H as [|? ? r r' ? H]; [discriminate L|]).
  destruct H; [|discriminate L].
  simpl. auto 10.
Qed.

Lemma block_sum_tree_length (a : list F) :
  8 <= length a ->
  length (unrolled ((length a - length a mod 8) / 8 - 1) (firstn 8 a) (skipn 8 a)) = 8.
Proof.
  intros L. apply unrolled_length.
  - rewrite length_firstn. lia.
  - rewrite length_skipn.
    pose proof (Nat.div_mod_eq (length a) 8) as E.
    assert (E' : (length a - length a mod 8) / 8 = length a / 8).
    { replace (length a - length a mod 8) with (length a / 8 * 8) by lia.
      now rewrite Nat.div_mul. }
    rewrite E'. pose proof (Nat.mod_upper_bound (length a) 8). lia.
Qed.

Lemma block_sum_rel (a b : list F) :
  8 <= length a -> Forall2 R a b -> R (block_sum a) (block_sum b).
Proof.
  intros L H. unfold block_sum.
  rewrite <- (Forall2_same_length R a b H).
  apply sum_loop_rel.
  - now apply Forall2_skipn.
  - apply tree8_rel.
    + now apply block_sum_tree_length.
    + apply unrolled_rel; [now apply Forall2_firstn | now apply Forall2_skipn].
Qed.

Lemma pairwise_sum_fuel_rel (fuel : nat) (a b : list F) :
  Forall2 R a b -> R (pairwise_sum_fuel fuel a) (pairwise_sum_fuel fuel b).
Proof.
  revert a b; induction fuel as [|fuel IH]; intros a b H; simpl;
    rewrite <- (Forall2_same_length R a b H);
    destruct (length a <? 8) eqn:E8;
    try (apply sum_loop_rel; now auto);
    apply Nat.ltb_ge in E8;
    destruct (length a <=? 128); try (now apply block_sum_rel).
  apply R_add; apply IH; [now apply Forall2_firstn | now apply Forall2_skipn].
Qed.

Lemma pairwise_sum_rel (a b : list F) :
  Forall2 R a b -> R (pairwise_sum a) (pairwise_sum b).
Proof.
  intros H. unfold pairwise_sum.
  rewrite <- (Forall2_same_length R a b H). now apply pairwise_sum_fuel_rel.
Qed.

Lemma np_sum_rel (a b : list F) :
  Forall2 R a b -> R (np_sum a) (np_sum b).
Proof. intros H. apply R_add; [exact R_zero | now apply pairwise_sum_rel]. Qed.

End SumRel.

(** The length of the array is enough fuel for [pairwise_sum_fuel], and more
    fuel changes nothing. *)
Section SumFuel.
Context {F : Type} {arith : Arith F}.

Lemma pairwise_sum_fuel_irrelevant (fuel1 fuel2 : nat) (a : list F) :
  length a <= fuel1 -> length a <= fuel2 ->
  pairwise_sum_fuel fuel1 a = pairwise_sum_fuel fuel2 a.
Proof.
  revert fuel2 a; induction fuel1 as [|fuel1 IH]; intros fuel2 a L1 L2.
  - assert (E : length a = 0) by lia.
    destruct fuel2; cbn [pairwise_sum_fuel]; rewrite E; reflexivity.
  - destruct fuel2 as [|fuel2].
    + assert (E : length a = 0) by lia.
      cbn [pairwise_sum_fuel]; rewrite E; reflexivity.
    + cbn [pairwise_sum_fuel].
      destruct (length a <? 8) eqn:E8; [reflexivity|].
      destruct (length a <=? 128) eqn:E128; [reflexivity|].
      apply Nat.leb_gt in E128.
      pose proof (Nat.div_mod_eq (length a) 2) as D.
      pose proof (Nat.mod_upper_bound (length a) 2 ltac:(lia)) as M.
      pose proof (Nat.mod_upper_bound (length a / 2) 8 ltac:(lia)) as M8.
      f_equal; apply IH; rewrite ?length_firstn, ?length_skipn; lia.
Qed.

Lemma pairwise_sum_enough_fuel (fuel : nat) (a : list F) :
  length a <= fuel -> pairwise_sum_fuel fuel a = pairwise_sum a.
Proof. intros L. apply pairwise_sum_fuel_irrelevant; auto. Qed.

End SumFuel.

(** * Exact arithmetic: the operations on rationals *)

#[local] Arguments Qred : simpl never.

Section ExactOps.
Import Exact.
Open Scope Q_scope.

Lemma q_zero_true (q : Q) : q_zero q = true <-> q == 0.
Proof.
  unfold q_zero, Qeq. simpl. rewrite Z.eqb_eq. lia.
Qed.

Lemma q_zero_false (q : Q) : q_zero q = false <-> ~ q == 0.
Proof.
  rewrite <- q_zero_true. destruct (q_zero q); split; congruence.
Qed.

Lemma is_fin_eq (a : xq) (p q : Q) : is_fin a p -> p == q -> is_fin a q.
Proof. destruct a; simpl; auto. intros H E. now rewrite H. Qed.

Lemma is_fin_unique (a : xq) (p q : Q) : is_fin a p -> is_fin a q -> p == q.
Proof. destruct a; simpl; try tauto. intros H1 H2. now rewrite <- H1, H2. Qed.

Lemma is_fin_of_Z (z : Z) : is_fin (of_Z z) (inject_Z z).
Proof. simpl. reflexivity. Qed.

Lemma is_fin_zero : is_fin zero 0.
Proof. exact (is_fin_of_Z 0). Qed.

Lemma is_fin_one : is_fin one 1.
Proof. exact (is_fin_of_Z 1). Qed.

Lemma is_fin_notnan (a : xq) (p : Q) : is_fin a p -> fisnan a = false.
Proof. destruct a; simpl; tauto. Qed.

Lemma x_add_fin (a b : xq) (p q : Q) :
  is_fin a p -> is_fin b q -> is_fin (a + b)%flt (p + q).
Proof.
  destruct a, b; simpl; try tauto. intros H1 H2.
  now rewrite Qred_correct, H1, H2.
Qed.

Lemma x_sub_fin (a b : xq) (p q : Q) :
  is_fin a p -> is_fin b q -> is_fin (a - b)%flt (p - q).
Proof.
  destruct a, b; simpl; try tauto. intros H1 H2.
  now rewrite Qred_correct, H1, H2.
Qed.

Lemma x_mul_fin (a b : xq) (p q : Q) :
  is_fin a p -> is_fin b q -> is_fin (a * b)%flt (p * q).
Proof.
  destruct a, b; simpl; try tauto. intros H1 H2.
  now rewrite Qred_correct, H1, H2.
Qed.

Lemma x_div_fin (a b : xq) (p q : Q) :
  is_fin a p -> is_fin b q -> ~ q == 0 -> is_fin (a / b)%flt (p / q).
Proof.
  destruct a as [| |a], b as [| |b]; simpl; try tauto. intros H1 H2 H3.
  assert (E : q_zero b = false) by (apply q_zero_false; now rewrite H2).
  rewrite E. simpl. now rewrite Qred_correct, H1, H2.
Qed.

Lemma x_leb_fin (a b : xq) (p q : Q) :
  is_fin a p -> is_fin b q -> ((a <=? b)%flt = true <-> p <= q).
Proof.
  destruct a as [| |a], b as [| |b]; simpl; try tauto. intros H1 H2.
  unfold x_leb, x_compare. rewrite <- H1, <- H2.
  destruct (a ?= b) eqn:E.
  - apply Qeq_alt in E. split; auto. intros _. rewrite E. apply Qle_refl.
  - apply Qlt_alt in E. split; auto. intros _. now apply Qlt_le_weak.
  - apply Qgt_alt in E. split; [discriminate|]. intros L.
    exfalso. apply (Qlt_not_le _ _ E L).
Qed.

Lemma x_eqb_fin (a b : xq) (p q : Q) :
  is_fin a p -> is_fin b q -> ((a == b)%flt = true <-> p == q).
Proof.
  destruct a as [| |a], b as [| |b]; simpl; try tauto. intros H1 H2.
  unfold x_eqb, x_compare. rewrite <- H1, <- H2.
  destruct (a ?= b) eqn:E.
  - apply Qeq_alt in E. tauto.
  - apply Qlt_alt in E. split; [discriminate|]. intros L. rewrite L in E.
    exfalso. apply (Qlt_irrefl _ E).
  - apply Qgt_alt in E. split; [discriminate|]. intros L. rewrite L in E.
    exfalso. apply (Qlt_irrefl _ E).
Qed.

(** [np.maximum] of two rationals is the larger one. *)
Lemma maximum_fin (a b : xq) (p q : Q) :
  is_fin a p -> is_fin b q ->
  exists r, is_fin (maximum a b) r /\ p <= r /\ q <= r /\ (r == p \/ r == q).
Proof.
  intros H1 H2. unfold maximum.
  rewrite (is_fin_notnan a p H1), orb_false_r.
  destruct (b <=? a)%flt eqn:E.
  - apply (x_leb_fin b a q p H2 H1) in E. exists p.
    repeat split; auto using Qle_refl. now left.
  - exists q. assert (L : ~ q <= p).
    { intros L. apply (x_leb_fin b a q p H2 H1) in L. congruence. }
    apply Qnot_le_lt in L.
    repeat split; auto using Qle_refl, Qlt_le_weak. now right.
Qed.

End ExactOps.

(** * Exact arithmetic: Omega over the threshold *)

Section ExactOmega.
Import Exact.
Open Scope Q_scope.

Lemma fin_le_intro (a b : xq) (p q : Q) :
  is_fin a p -> is_fin b q -> p <= q -> fin_le a b.
Proof.
  destruct a, b; simpl; try tauto. intros H1 H2 L. now rewrite H1, H2.
Qed.

Lemma le_from_zero_zero : le_from_zero zero zero.
Proof. split; cbn; apply Qle_refl. Qed.

Lemma le_from_zero_add (x x' y y' : xq) :
  le_from_zero x x' -> le_from_zero y y' -> le_from_zero (x + y)%flt (x' + y')%flt.
Proof.
  unfold le_from_zero. intros [Hx Hxx] [Hy Hyy].
  destruct x as [| |x], x' as [| |x'], y as [| |y], y' as [| |y'];
    cbn [fin_le] in *; try contradiction.
  cbn [fadd exact_arith x_add fin_le].
  rewrite !Qred_correct. split; lra.
Qed.

(** The positive part is monotone. *)
Lemma positive_part_le (a b : xq) (p q : Q) :
  is_fin a p -> is_fin b q -> p <= q ->
  le_from_zero (maximum a zero) (maximum b zero).
Proof.
  intros Ha Hb L.
  destruct (maximum_fin a zero p 0 Ha is_fin_zero) as (ra & Hra & _ & Ha0 & Hac).
  destruct (maximum_fin b zero q 0 Hb is_fin_zero) as (rb & Hrb & Hbq & Hb0 & _).
  split.
  - apply (fin_le_intro _ _ 0 ra); auto. reflexivity.
  - apply (fin_le_intro _ _ ra rb); auto. destruct Hac as [E|E]; rewrite E; lra.
Qed.

Lemma Forall2_map_same {A B : Type} (R : B -> B -> Prop) (f g : A -> B) (l : list A) :
  Forall (fun x => R (f x) (g x)) l -> Forall2 R (map f l) (map g l).
Proof. induction 1; simpl; constructor; auto. Qed.

(** What the NaN filter leaves of a series of observations are rationals. *)
Lemma filter_notnan_fin (returns : list xq) :
  Forall (fun r => is_obs r = true) returns ->
  Forall (fun r => exists q, is_fin r q) (filter notnan returns).
Proof.
  induction 1 as [|r l Hr H IH]; simpl; [constructor|].
  destruct r as [| |q]; simpl in *; try discriminate; auto.
  constructor; auto. exists q. reflexivity.
Qed.

Lemma omega_gains_antitone (l : list xq) (p1 p2 : Q) :
  Forall (fun r => exists q, is_fin r q) l -> p1 <= p2 ->
  le_from_zero (omega_gains l (XFin p2)) (omega_gains l (XFin p1)).
Proof.
  intros Hl L. unfold omega_gains.
  apply (np_sum_rel le_from_zero le_from_zero_zero le_from_zero_add).
  apply Forall2_map_same. eapply Forall_impl; [|exact Hl].
  intros r [q Hq].
  apply (positive_part_le _ _ (q - p2) (q - p1)).
  - apply x_sub_fin; simpl; auto; reflexivity.
  - apply x_sub_fin; simpl; auto; reflexivity.
  - lra.
Qed.

Lemma omega_losses_monotone (l : list xq) (p1 p2 : Q) :
  Forall (fun r => exists q, is_fin r q) l -> p1 <= p2 ->
  le_from_zero (omega_losses l (XFin p1)) (omega_losses l (XFin p2)).
Proof.
  intros Hl L. unfold omega_losses.
  apply (np_sum_rel le_from_zero le_from_zero_zero le_from_zero_add).
  apply Forall2_map_same. eapply Forall_impl; [|exact Hl].
  intros r [q Hq].
  apply (positive_part_le _ _ (p1 - q) (p2 - q)).
  - apply x_sub_fin; simpl; auto; reflexivity.
  - apply x_sub_fin; simpl; auto; reflexivity.
  - lra.
Qed.

Lemma ratio_monotone (g1 g2 l1 l2 : Q) :
  0 <= g2 -> g2 <= g1 -> 0 < l1 -> l1 <= l2 -> g2 / l2 <= g1 / l1.
Proof.
  intros Hg Hgg Hl Hll.
  apply Qle_shift_div_l; [exact Hl|].
  assert (E : g2 / l2 * l1 == g2 * l1 / l2) by (field; lra).
  rewrite E. apply Qle_shift_div_r; [lra|].
  nra.
Qed.

Lemma filter_notnan_nonempty {F : Type} {arith : Arith F} (returns : list F) :
  (exists r, In r returns /\ fisnan r = false) ->
  (length (filter notnan returns) =? 0)%nat = false.
Proof.
  intros (r & Hin & Hr).
  assert (H : In r (filter notnan returns)).
  { apply filter_In. split; auto. unfold notnan. now rewrite Hr. }
  destruct (filter notnan returns); [destruct H|reflexivity].
Qed.

Lemma le_from_zero_elim (a b : xq) :
  le_from_zero a b -> exists p q, is_fin a p /\ is_fin b q /\ 0 <= p /\ p <= q.
Proof.
  intros [H0 H]. destruct a as [| |p], b as [| |q]; cbn [fin_le] in *; try contradiction.
  exists p, q. repeat split; auto; reflexivity.
Qed.

End ExactOmega.

(** * Maximum drawdown *)

Section NanmaxFacts.
Context {F : Type} {arith : Arith F}.

Lemma fmax_cases (a b : F) : fmax a b = a \/ fmax a b = b.
Proof. unfold fmax. destruct (_ || _); auto. Qed.

Lemma nanmax_fold_closed (P : F -> Prop) (l : list F) (x : F) :
  P x -> Forall P l -> P (fold_left fmax l x).
Proof.
  intros Hx H; revert x Hx; induction H as [|y l Hy H IH]; intros x Hx; simpl; auto.
  apply IH. destruct (fmax_cases x y) as [E|E]; now rewrite E.
Qed.

Lemma forallb_isnan_false (returns : list F) :
  (exists r, In r returns /\ fisnan r = false) -> forallb fisnan returns = false.
Proof.
  intros (r & Hin & Hr).
  destruct (forallb fisnan returns) eqn:E; auto.
  rewrite forallb_forall in E. rewrite (E r Hin) in Hr. discriminate.
Qed.

End NanmaxFacts.

Section ExactDrawdown.
Import Exact.
Open Scope Q_scope.

Lemma drawdown_in_unit (c m : xq) (qc qm : Q) :
  is_fin c qc -> is_fin m qm -> 0 <= qc -> qc <= qm -> 0 < qm ->
  in_unit (one - c / m)%flt.
Proof.
  intros Hc Hm Hpos Hle Hm0. exists (1 - qc / qm). split; [|split].
  - apply x_sub_fin; [exact is_fin_one|]. apply x_div_fin; auto. lra.
  - assert (qc / qm <= 1) by (apply Qle_shift_div_r; lra). lra.
  - assert (0 <= qc / qm) by (apply Qle_shift_div_l; lra). lra.
Qed.

Lemma drawdown_at_peak (c m : xq) (qc qm : Q) :
  is_fin c qc -> is_fin m qm -> 0 < qc -> qc == qm ->
  is_fin (one - c / m)%flt 0.
Proof.
  intros Hc Hm Hpos E.
  apply (is_fin_eq _ (1 - qc / qm)).
  - apply x_sub_fin; [exact is_fin_one|]. apply x_div_fin; auto. lra.
  - rewrite E. field. lra.
Qed.

(** Along the path the level is not negative and stays below the running
    peak, which is positive. *)
Lemma drawdowns_from_in_unit (fs : list xq) (c m : xq) (qc qm : Q) :
  Forall nonneg_fin fs ->
  is_fin c qc -> is_fin m qm -> 0 <= qc -> qc <= qm -> 0 < qm ->
  Forall in_unit
    (map2 (fun c m => (one - c / m)%flt)
       (accumulate_from fmul c fs)
       (accumulate_from maximum m (accumulate_from fmul c fs))).
Proof.
  intros H; revert c m qc qm.
  induction H as [|f fs (qf & Hf & Hfpos) H IH]; intros c m qc qm Hc Hm Hpos Hle Hm0;
    cbn [accumulate_from map2]; constructor.
  - pose proof (x_mul_fin c f qc qf Hc Hf) as Hc'.
    destruct (maximum_fin m (c * f)%flt qm (qc * qf) Hm Hc') as (rm & Hrm & L1 & L2 & _).
    apply (drawdown_in_unit _ _ (qc * qf) rm); auto; [nra|lra].
  - pose proof (x_mul_fin c f qc qf Hc Hf) as Hc'.
    destruct (maximum_fin m (c * f)%flt qm (qc * qf) Hm Hc') as (rm & Hrm & L1 & L2 & _).
    apply (IH _ _ (qc * qf) rm); auto; [nra|lra].
Qed.

(** With factors of at least 1 every level is a new peak. *)
Lemma drawdowns_from_zero (fs : list xq) (c m : xq) (qc qm : Q) :
  Forall ge1_fin fs ->
  is_fin c qc -> is_fin m qm -> 0 < qc -> qc == qm ->
  Forall (fun d => is_fin d 0)
    (map2 (fun c m => (one - c / m)%flt)
       (accumulate_from fmul c fs)
       (accumulate_from maximum m (accumulate_from fmul c fs))).
Proof.
  intros H; revert c m qc qm.
  induction H as [|f fs (qf & Hf & Hfge) H IH]; intros c m qc qm Hc Hm Hpos E;
    cbn [accumulate_from map2]; constructor.
  - pose proof (x_mul_fin c f qc qf Hc Hf) as Hc'.
    destruct (maximum_fin m (c * f)%flt qm (qc * qf) Hm Hc') as (rm & Hrm & L1 & L2 & Hcase).
    apply (drawdown_at_peak _ _ (qc * qf) rm); auto; [nra|].
    destruct Hcase as [E'|E']; [|now rewrite E'].
    apply Qle_antisym; [exact L2|]. rewrite E', <- E. nra.
  - pose proof (x_mul_fin c f qc qf Hc Hf) as Hc'.
    destruct (maximum_fin m (c * f)%flt qm (qc * qf) Hm Hc') as (rm & Hrm & L1 & L2 & Hcase).
    apply (IH _ _ (qc * qf) rm); auto; [nra|].
    destruct Hcase as [E'|E']; [|now rewrite E'].
    apply Qle_antisym; [exact L2|]. rewrite E', <- E. nra.
Qed.

(** The factor [1 + nan_to_num r] of an observation: a missing month counts
    as 0%. *)
Lemma factor_fin (r : xq) :
  is_obs r = true ->
  exists q, is_fin (one + nan_to_num r)%flt (1 + q) /\
            (r = XNaN /\ q == 0 \/ r = XFin q).
Proof.
  intros Hobs. destruct r as [| |q]; try discriminate.
  - exists 0. split; [|left; split; reflexivity].
    apply x_add_fin; [exact is_fin_one|]. cbn. reflexivity.
  - exists q. split; [|now right].
    apply x_add_fin; [exact is_fin_one|]. cbn. reflexivity.
Qed.

Lemma factors_bounded (lo : Q) (returns : list xq) :
  lo <= 0 ->
  Forall (fun r => is_obs r = true) returns ->
  (forall q, In (XFin q) returns -> lo <= q) ->
  Forall (fun f => exists q, is_fin f q /\ 1 + lo <= q)
    (map (fun r => (one + nan_to_num r)%flt) returns).
Proof.
  intros Hlo H; induction H as [|r l Hr H IH]; intros Hq; simpl; constructor.
  - destruct (factor_fin r Hr) as (q & Hf & [[_ E]|E]).
    + exists (1 + q). split; [exact Hf|]. rewrite E. lra.
    + exists (1 + q). split; [exact Hf|]. subst r.
      assert (lo <= q) by (apply Hq; now left). lra.
  - apply IH. intros q Hin. apply Hq. now right.
Qed.

End ExactDrawdown.

(** * binary64: negation and cancellation *)

Section B64Opp.
Import B64.

Lemma binary_round_aux_opp (s : bool) (m e : Z) (l : location) :
  binary_round_aux prec emax (negb s) m e l = SFopp (binary_round_aux prec emax s m e l).
Proof.
  unfold binary_round_aux.
  destruct (shr_fexp prec emax m e l) as [mrs' e'].
  destruct (shr_fexp prec emax _ e' loc_Exact) as [mrs'' e''].
  destruct (shr_m mrs''); try reflexivity.
  destruct (e'' <=? emax - prec)%Z; reflexivity.
Qed.

Lemma binary_round_opp (s : bool) (m : positive) (e : Z) :
  binary_round prec emax (negb s) m e = SFopp (binary_round prec emax s m e).
Proof.
  unfold binary_round. destruct (shl_align _ _ _) as [mz ez].
  apply binary_round_aux_opp.
Qed.

Lemma SFopp_involutive (a : spec_float) : SFopp (SFopp a) = a.
Proof. destruct a; simpl; now rewrite ?Bool.negb_involutive. Qed.

Lemma opp_rel_zeros (s s' : bool) : opp_rel (S754_zero s) (S754_zero s').
Proof. right. split; reflexivity. Qed.

Lemma binary_normalize_opp (z : Z) (e : Z) :
  opp_rel (binary_normalize prec emax z e false) (binary_normalize prec emax (- z) e false).
Proof.
  destruct z as [|m|m]; cbn [binary_normalize Z.opp].
  - apply opp_rel_zeros.
  - left. apply (binary_round_opp false).
  - left. rewrite (binary_round_opp false). now rewrite SFopp_involutive.
Qed.

Lemma cond_Zopp_negb (s : bool) (z : Z) : cond_Zopp (negb s) z = (- cond_Zopp s z)%Z.
Proof. destruct s; simpl; lia. Qed.

(** [y - x] is the negative of [x - y]. *)
Lemma SFsub_swap (x y : spec_float) :
  opp_rel (SFsub prec emax x y) (SFsub prec emax y x).
Proof.
  destruct x as [sx|sx| |sx mx ex], y as [sy|sy| |sy my ey];
    try solve [left; reflexivity];
    try (destruct sx, sy; solve [left; reflexivity | right; split; reflexivity]).
  cbn [SFsub]. rewrite (Z.min_comm ey ex).
  set (a := cond_Zopp sx _). set (b := cond_Zopp sy _).
  replace (b - a)%Z with (- (a - b))%Z by lia.
  apply binary_normalize_opp.
Qed.

Ltac opp_rel_by_cases :=
  solve [ left; reflexivity
        | right; split; reflexivity
        | match goal with s : bool |- _ => destruct s; opp_rel_by_cases end ].

Lemma is_zero_inv (a : spec_float) : is_zero a = true -> exists s, a = S754_zero s.
Proof. destruct a; try discriminate. eauto. Qed.

Lemma SFadd_opp (x y : spec_float) :
  opp_rel (SFadd prec emax x y) (SFadd prec emax (SFopp x) (SFopp y)).
Proof.
  destruct x as [sx|sx| |sx mx ex], y as [sy|sy| |sy my ey];
    try solve [left; reflexivity];
    try (destruct sx, sy; solve [left; reflexivity | right; split; reflexivity]).
  cbn [SFadd SFopp]. rewrite !cond_Zopp_negb.
  set (a := cond_Zopp sx _). set (b := cond_Zopp sy _).
  replace (- a + - b)%Z with (- (a + b))%Z by lia.
  apply binary_normalize_opp.
Qed.

Lemma SFsub_opp (x y : spec_float) :
  opp_rel (SFsub prec emax x y) (SFsub prec emax (SFopp x) (SFopp y)).
Proof.
  destruct x as [sx|sx| |sx mx ex], y as [sy|sy| |sy my ey];
    try solve [left; reflexivity];
    try (destruct sx, sy; solve [left; reflexivity | right; split; reflexivity]).
  cbn [SFsub SFopp]. rewrite !cond_Zopp_negb.
  set (a := cond_Zopp sx _). set (b := cond_Zopp sy _).
  replace (- a - - b)%Z with (- (a - b))%Z by lia.
  apply binary_normalize_opp.
Qed.

Lemma SFadd_opp_rel (a a' b b' : spec_float) :
  opp_rel a a' -> opp_rel b b' ->
  opp_rel (SFadd prec emax a b) (SFadd prec emax a' b').
Proof.
  intros [->|[Za Za']] [->|[Zb Zb']].
  - apply SFadd_opp.
  - apply is_zero_inv in Zb, Zb'. destruct Zb as [s ->], Zb' as [s' ->].
    destruct a; opp_rel_by_cases.
  - apply is_zero_inv in Za, Za'. destruct Za as [s ->], Za' as [s' ->].
    destruct b; opp_rel_by_cases.
  - apply is_zero_inv in Za, Za', Zb, Zb'.
    destruct Za as [s1 ->], Za' as [s2 ->], Zb as [s3 ->], Zb' as [s4 ->].
    opp_rel_by_cases.
Qed.

Lemma SFsub_opp_rel (a a' b b' : spec_float) :
  opp_rel a a' -> opp_rel b b' ->
  opp_rel (SFsub prec emax a b) (SFsub prec emax a' b').
Proof.
  intros [->|[Za Za']] [->|[Zb Zb']].
  - apply SFsub_opp.
  - apply is_zero_inv in Zb, Zb'. destruct Zb as [s ->], Zb' as [s' ->].
    destruct a; opp_rel_by_cases.
  - apply is_zero_inv in Za, Za'. destruct Za as [s ->], Za' as [s' ->].
    destruct b; opp_rel_by_cases.
  - apply is_zero_inv in Za, Za', Zb, Zb'.
    destruct Za as [s1 ->], Za' as [s2 ->], Zb as [s3 ->], Zb' as [s4 ->].
    opp_rel_by_cases.
Qed.

(** Dividing by the same count keeps the relation. *)
Lemma SFdiv_opp_rel (a a' n : spec_float) :
  opp_rel a a' -> opp_rel (SFdiv prec emax a n) (SFdiv prec emax a' n).
Proof.
  intros [->|[Za Za']].
  - left. destruct a as [sa|sa| |sa ma ea], n as [sn|sn| |sn mn en];
      try reflexivity; try (destruct sa, sn; reflexivity).
    cbn [SFdiv SFopp].
    destruct (SFdiv_core_binary prec emax (Z.pos ma) ea (Z.pos mn) en) as [[mz ez] lz].
    replace (xorb (negb sa) sn) with (negb (xorb sa sn)) by (now destruct sa, sn).
    apply binary_round_aux_opp.
  - apply is_zero_inv in Za, Za'. destruct Za as [s ->], Za' as [s' ->].
    destruct n; opp_rel_by_cases.
Qed.

(** A number and its negative have the same square. *)
Lemma SFmul_square_opp_rel (a a' : spec_float) :
  opp_rel a a' -> SFmul prec emax a a = SFmul prec emax a' a'.
Proof.
  intros [->|[Za Za']].
  - destruct a as [s|s| |s m e]; simpl; try reflexivity; now destruct s.
  - apply is_zero_inv in Za, Za'. destruct Za as [s ->], Za' as [s' ->].
    now destruct s, s'.
Qed.

Lemma isnan_opp_rel (a a' : spec_float) :
  opp_rel a a' -> b64_isnan a' = b64_isnan a.
Proof.
  intros [->|[Za Za']].
  - now destruct a.
  - apply is_zero_inv in Za, Za'. destruct Za as [s ->], Za' as [s' ->]. reflexivity.
Qed.

End B64Opp.

(** * Tracking error: the order of the two series *)

Section BroadcastSwap.
Context {A B : Type}.

Lemma combine_swap (a : list A) (b : list B) :
  combine b a = map swap_pair (combine a b).
Proof.
  revert b; induction a as [|x a IH]; intros [|y b]; simpl; try reflexivity.
  now rewrite IH.
Qed.

Lemma broadcast_swap (a : list A) (b : list B) :
  broadcast b a = option_map (map swap_pair) (broadcast a b).
Proof.
  unfold broadcast.
  destruct a as [|x [|x' a]], b as [|y [|y' b]]; try reflexivity.
  - cbn [option_map]. now rewrite map_map.
  - cbn [option_map]. now rewrite map_map.
  - rewrite Nat.eqb_sym. destruct (_ =? _); cbn [option_map]; [|reflexivity].
    now rewrite combine_swap.
Qed.

End BroadcastSwap.

Section B64TrackingError.
Import B64.

Lemma opp_rel_zero : opp_rel zero zero.
Proof. right. split; reflexivity. Qed.

Lemma np_var_opp_rel (ddof : nat) (l l' : list spec_float) :
  Forall2 opp_rel l l' -> np_var ddof l = np_var ddof l'.
Proof.
  intros H. unfold np_var.
  rewrite <- (Forall2_same_length opp_rel l l' H).
  set (m := (np_sum l / of_nat (length l))%flt).
  set (m' := (np_sum l' / of_nat (length l))%flt).
  assert (Hm : opp_rel m m').
  { apply SFdiv_opp_rel. apply (np_sum_rel opp_rel opp_rel_zero SFadd_opp_rel). exact H. }
  assert (E : map (fun v => ((v - m) * (v - m))%flt) l =
              map (fun v => ((v - m') * (v - m'))%flt) l').
  { clearbody m m'.
    induction H as [|v v' l l' Hv H IH]; cbn [map]; [reflexivity|].
    f_equal; [|exact IH].
    apply SFmul_square_opp_rel. now apply SFsub_opp_rel. }
  now rewrite E.
Qed.

Lemma filter_notnan_opp_rel (l l' : list spec_float) :
  Forall2 opp_rel l l' -> Forall2 opp_rel (filter notnan l) (filter notnan l').
Proof.
  induction 1 as [|v v' l l' Hv H IH]; cbn [filter]; [constructor|].
  change (notnan v) with (negb (b64_isnan v)).
  change (notnan v') with (negb (b64_isnan v')).
  rewrite (isnan_opp_rel v v' Hv).
  destruct (b64_isnan v); cbn [negb]; auto.
Qed.

Lemma active_returns_swap (pairs : list (spec_float * spec_float)) :
  Forall2 opp_rel
    (map (fun p => (fst p - snd p)%flt) pairs)
    (map (fun p => (fst p - snd p)%flt) (map swap_pair pairs)).
Proof.
  induction pairs as [|[x y] pairs IH]; simpl; constructor; auto.
  apply SFsub_swap.
Qed.

End B64TrackingError.

(** * Sums of elements that share a property *)

Section SumClosed.
Context {F : Type} {arith : Arith F}.
Variable P : F -> Prop.
Hypothesis P_zero : P zero.
Hypothesis P_add : forall x y, P x -> P y -> P (x + y)%flt.

Lemma Forall2_diag (l : list F) : Forall P l -> Forall2 (fun x _ => P x) l l.
Proof. induction 1; constructor; auto. Qed.

Lemma np_sum_closed (l : list F) : Forall P l -> P (np_sum l).
Proof.
  intros H.
  apply (np_sum_rel (fun x _ => P x) P_zero (fun x _ y _ => P_add x y) l l).
  now apply Forall2_diag.
Qed.

End SumClosed.

(** * Omega at the threshold *)

Section B64Omega.
Import B64.

Lemma SFeqb_sub_zero (r t : spec_float) :
  is_inf t = false -> SFeqb r t = true ->
  is_zero (SFsub prec emax r t) = true /\ is_zero (SFsub prec emax t r) = true.
Proof.
  intros Ht E. unfold SFeqb in E.
  destruct r as [sr|sr| |sr mr er], t as [st|st| |st mt et];
    try discriminate; try (destruct sr, st; split; reflexivity);
    try (destruct sr; discriminate); try (destruct st; discriminate).
  cbn [SFcompare] in E.
  assert (Es : sr = st /\ er = et /\ mr = mt).
  { destruct sr, st; try discriminate;
      destruct (er ?= et)%Z eqn:Ee; try discriminate;
      apply Z.compare_eq in Ee;
      destruct (Pos.compare_cont Eq mr mt) eqn:Em; try discriminate;
      apply Pos.compare_eq in Em; auto. }
  destruct Es as (-> & -> & ->).
  cbn [SFsub]. rewrite Z.sub_diag. split; reflexivity.
Qed.

Lemma maximum_zero_is_zero (z : spec_float) :
  is_zero z = true -> is_zero (maximum z zero) = true.
Proof. destruct z as [s| | |]; try discriminate. now destruct s. Qed.

Lemma is_zero_add (x y : spec_float) :
  is_zero x = true -> is_zero y = true -> is_zero (x + y)%flt = true.
Proof.
  destruct x as [sx| | |], y as [sy| | |]; try discriminate. now destruct sx, sy.
Qed.

Lemma is_zero_eqb_zero (z : spec_float) : is_zero z = true -> (z == zero)%flt = true.
Proof. destruct z; try discriminate. reflexivity. Qed.

Lemma omega_sums_at_threshold_b64 (l : list spec_float) (threshold : spec_float) :
  is_inf threshold = false ->
  Forall (fun r => SFeqb r threshold = true) l ->
  is_zero (omega_gains l threshold) = true /\
  is_zero (omega_losses l threshold) = true.
Proof.
  intros Ht Hl. unfold omega_gains, omega_losses.
  split; (apply (np_sum_closed (fun x => is_zero x = true));
          [reflexivity|exact is_zero_add|]);
    apply Forall_map; (eapply Forall_impl; [|exact Hl]);
    intros r E; apply maximum_zero_is_zero;
    now apply (SFeqb_sub_zero r threshold Ht E).
Qed.

Lemma omega_ratio_at_threshold_b64 (returns : list spec_float) (threshold : spec_float) :
  is_inf threshold = false ->
  (exists r, In r returns /\ fisnan r = false) ->
  (forall r, In r returns -> fisnan r = false -> (r == threshold)%flt = true) ->
  (omega_gains (filter notnan returns) threshold == zero)%flt = true /\
  (omega_losses (filter notnan returns) threshold == zero)%flt = true /\
  omega_ratio returns threshold = of_Z 1000.
Proof.
  intros Ht Hex Hall.
  assert (Hl : Forall (fun r => SFeqb r threshold = true) (filter notnan returns)).
  { apply Forall_forall. intros r Hin. apply filter_In in Hin. destruct Hin as [Hin Hn].
    apply Hall; auto. unfold notnan in Hn. now destruct (fisnan r). }
  destruct (omega_sums_at_threshold_b64 _ threshold Ht Hl) as [Zg Zl].
  apply is_zero_eqb_zero in Zg, Zl.
  repeat split; auto.
  unfold omega_ratio. now rewrite (filter_notnan_nonempty returns Hex), Zl.
Qed.

End B64Omega.

(** * binary64: where NaN comes from *)

Section B64Nan.
Import B64.

Lemma shr_1_nonneg (mrs : shr_record) :
  (0 <= shr_m mrs)%Z -> (0 <= shr_m (shr_1 mrs))%Z.
Proof.
  destruct mrs as [m r s]. cbn [shr_m].
  destruct m as [|[p|p|]|p]; cbn; lia.
Qed.

Lemma iter_pos_invariant {A : Type} (f : A -> A) (P : A -> Prop) :
  (forall x, P x -> P (f x)) -> forall p x, P x -> P (iter_pos f p x).
Proof.
  intros Hf. induction p as [p IH|p IH|]; intros x Hx; cbn [iter_pos]; auto.
Qed.

Lemma shr_nonneg (mrs : shr_record) (e n : Z) :
  (0 <= shr_m mrs)%Z -> (0 <= shr_m (fst (shr mrs e n)))%Z.
Proof.
  intros H. unfold shr. destruct n; cbn [fst]; auto.
  apply (iter_pos_invariant shr_1 (fun x => (0 <= shr_m x)%Z)); auto.
  exact shr_1_nonneg.
Qed.

Lemma shr_fexp_nonneg (m e : Z) (l : location) :
  (0 <= m)%Z -> (0 <= shr_m (fst (shr_fexp prec emax m e l)))%Z.
Proof.
  intros H. unfold shr_fexp. apply shr_nonneg.
  destruct l as [|[]]; exact H.
Qed.

Lemma round_nearest_even_nonneg (m : Z) (l : location) :
  (0 <= m)%Z -> (0 <= round_nearest_even m l)%Z.
Proof.
  intros H. destruct l as [|[]]; cbn [round_nearest_even]; try lia.
  destruct (Z.even m); lia.
Qed.

(** Rounding a non-negative mantissa gives a zero, a finite number or an
    infinity. *)
Lemma binary_round_aux_notnan (s : bool) (m e : Z) (l : location) :
  (0 <= m)%Z -> b64_isnan (binary_round_aux prec emax s m e l) = false.
Proof.
  intros H. unfold binary_round_aux.
  pose proof (shr_fexp_nonneg m e l H) as H1.
  destruct (shr_fexp prec emax m e l) as [mrs' e']. cbn [fst] in H1.
  pose proof (shr_fexp_nonneg _ e' loc_Exact
                (round_nearest_even_nonneg (shr_m mrs') (loc_of_shr_record mrs') H1)) as H2.
  destruct (shr_fexp prec emax _ e' loc_Exact) as [mrs'' e'']. cbn [fst] in H2.
  destruct (shr_m mrs''); try reflexivity; [|lia].
  destruct (e'' <=? emax - prec)%Z; reflexivity.
Qed.

Lemma binary_normalize_notnan (z e : Z) (szero : bool) :
  b64_isnan (binary_normalize prec emax z e szero) = false.
Proof.
  destruct z as [|m|m]; cbn [binary_normalize]; try reflexivity;
    unfold binary_round; destruct (shl_align _ _ _) as [mz ez];
    apply binary_round_aux_notnan; lia.
Qed.

(** The difference of two observations is missing exactly when one is. *)
Lemma SFsub_isnan (x y : spec_float) :
  is_inf x = false -> is_inf y = false ->
  b64_isnan (SFsub prec emax x y) = b64_isnan x || b64_isnan y.
Proof.
  destruct x as [sx|sx| |sx mx ex], y as [sy|sy| |sy my ey];
    try discriminate; intros _ _; try reflexivity;
    try (destruct sx, sy; reflexivity).
  cbn [SFsub]. rewrite binary_normalize_notnan. reflexivity.
Qed.

End B64Nan.

(** * The relative metrics and the usable pairs *)

Section UsablePairs.
Context {F : Type} {arith : Arith F}.

Lemma valid_mask_length (pairs : list (F * F)) : length (valid_mask pairs) = length pairs.
Proof. apply length_map. Qed.

Lemma usable_pair_test (x y : F) :
  negb (fisnan x || fisnan y) = notnan x && notnan y.
Proof. unfold notnan. now destruct (fisnan x), (fisnan y). Qed.

Lemma count_true_valid (fund benchmark : list F) :
  count_true (valid_mask (combine fund benchmark)) = length (usable_pairs fund benchmark).
Proof.
  unfold count_true, usable_pairs, valid_mask.
  induction (combine fund benchmark) as [|[x y] l IH]; cbn [map filter fst snd]; auto.
  rewrite usable_pair_test. destruct (notnan x && notnan y); cbn [length]; now rewrite IH.
Qed.

Lemma select_fst (fund benchmark : list F) :
  map fst (filter snd (combine fund (valid_mask (combine fund benchmark)))) =
  map fst (usable_pairs fund benchmark).
Proof.
  unfold usable_pairs, valid_mask.
  revert benchmark; induction fund as [|x f IH]; intros [|y b]; try reflexivity.
  cbn [combine map filter fst snd]. rewrite usable_pair_test.
  destruct (notnan x && notnan y); cbn [map fst]; now rewrite IH.
Qed.

Lemma select_snd (fund benchmark : list F) :
  map fst (filter snd (combine benchmark (valid_mask (combine fund benchmark)))) =
  map snd (usable_pairs fund benchmark).
Proof.
  unfold usable_pairs, valid_mask.
  revert benchmark; induction fund as [|x f IH]; intros [|y b]; try reflexivity.
  cbn [combine map filter fst snd]. rewrite usable_pair_test.
  destruct (notnan x && notnan y); cbn [map fst snd]; now rewrite IH.
Qed.

Lemma mask_select_fund (fund benchmark : list F) :
  length fund = length benchmark ->
  mask_select fund (valid_mask (combine fund benchmark)) =
  Some (map fst (usable_pairs fund benchmark)).
Proof.
  intros E. unfold mask_select.
  rewrite valid_mask_length, length_combine, <- E, Nat.min_id, Nat.eqb_refl.
  now rewrite select_fst.
Qed.

Lemma mask_select_benchmark (fund benchmark : list F) :
  length fund = length benchmark ->
  mask_select benchmark (valid_mask (combine fund benchmark)) =
  Some (map snd (usable_pairs fund benchmark)).
Proof.
  intros E. unfold mask_select.
  rewrite valid_mask_length, length_combine, <- E, Nat.min_id, Nat.eqb_refl.
  now rewrite select_snd.
Qed.

Lemma np_var_sample_variance (a : list F) : np_var 1 a = sample_variance a.
Proof. reflexivity. Qed.

Lemma np_cov01_sample_covariance (x y : list F) : np_cov01 x y = sample_covariance x y.
Proof. reflexivity. Qed.

Lemma beta_refines_spec (fund benchmark : list F) :
  length fund = length benchmark ->
  beta fund benchmark = Some (beta_spec fund benchmark).
Proof.
  intros E. unfold beta, beta_spec.
  rewrite (broadcast_same_length fund benchmark E), count_true_valid.
  destruct (_ <=? 1); [reflexivity|].
  rewrite (mask_select_fund _ _ E), (mask_select_benchmark _ _ E).
  rewrite np_var_sample_variance, np_cov01_sample_covariance.
  now destruct (_ == _)%flt.
Qed.

End UsablePairs.

Section B64TrackingSpec.
Import B64.

Lemma active_returns_usable (fund benchmark : list spec_float) :
  Forall (fun r => is_obs r = true) fund ->
  Forall (fun r => is_obs r = true) benchmark ->
  filter notnan (map (fun p => (fst p - snd p)%flt) (combine fund benchmark)) =
  map (fun p => (fst p - snd p)%flt) (usable_pairs fund benchmark).
Proof.
  unfold usable_pairs.
  intros Hf; revert benchmark; induction Hf as [|x f Hx Hf IH]; intros [|y b] Hb;
    try reflexivity.
  inversion Hb as [|? ? Hy Hb']; subst.
  cbn [combine map filter fst snd].
  change (notnan (x - y)%flt) with (negb (b64_isnan (SFsub prec emax x y))).
  unfold is_obs in Hx, Hy. apply Bool.negb_true_iff in Hx, Hy.
  rewrite (SFsub_isnan x y Hx Hy).
  change (negb (b64_isnan x || b64_isnan y)) with (negb (fisnan x || fisnan y)).
  rewrite usable_pair_test.
  destruct (notnan x && notnan y); cbn [map fst snd]; now rewrite IH.
Qed.

Lemma tracking_error_refines_spec (fund benchmark : list spec_float) :
  length fund = length benchmark ->
  Forall (fun r => is_obs r = true) fund ->
  Forall (fun r => is_obs r = true) benchmark ->
  tracking_error fund benchmark = Some (tracking_error_spec fund benchmark).
Proof.
  intros E Hf Hb. unfold tracking_error, tracking_error_spec.
  rewrite (broadcast_same_length fund benchmark E).
  rewrite (active_returns_usable fund benchmark Hf Hb).
  destruct (_ <=? 1); reflexivity.
Qed.

End B64TrackingSpec.

(** * Annualized return over one year *)

Section AnnualizedYear.
Context {F : Type} {arith : Arith F} {pow_F : Pow F}.
Hypothesis pow_one : forall x : F, fpow x one = x.
Hypothesis exponent_year : (of_Z 12 / of_nat 12)%flt = one.

Lemma filter_notnan_repeat (r : F) (n : nat) :
  fisnan r = false -> filter notnan (repeat r n) = repeat r n.
Proof.
  intros Hr. induction n as [|n IH]; cbn [repeat filter]; [reflexivity|].
  unfold notnan at 1. now rewrite Hr, IH.
Qed.

Lemma annualized_return_year (r : F) :
  fisnan r = false ->
  annualized_return (repeat r 12) = (np_prod (repeat (one + r)%flt 12) - one)%flt.
Proof.
  intros Hr. unfold annualized_return.
  rewrite (filter_notnan_repeat r 12 Hr), repeat_length, map_repeat.
  cbn [Nat.eqb]. now rewrite exponent_year, pow_one.
Qed.

End AnnualizedYear.

Section ExactYear.
Import Exact.
Open Scope Q_scope.

Lemma np_prod_year_exact (a : xq) (p : Q) :
  is_fin a p -> is_fin (np_prod (repeat a 12)) (p ^ 12).
Proof.
  intros H. unfold np_prod. cbn [repeat fold_left].
  eapply is_fin_eq.
  - repeat (apply x_mul_fin; [|exact H]). exact is_fin_one.
  - simpl. ring.
Qed.

End ExactYear.

(** * binary64: the correlation is clipped *)

Section B64Clip.
Import B64.

Lemma clip_not_inf (x : spec_float) : is_inf (clip x (of_Z (-1)) one) = false.
Proof.
  destruct x as [s|s| |s m e]; try (destruct s; reflexivity); try reflexivity.
  unfold clip. cbn [fisnan b64_arith b64_isnan].
  destruct (of_Z (-1) <? S754_finite s m e)%flt.
  - cbn [b64_isnan]. destruct (S754_finite s m e <? one)%flt; reflexivity.
  - destruct (b64_isnan (of_Z (-1))); [reflexivity|].
    destruct (of_Z (-1) <? one)%flt; reflexivity.
Qed.

Lemma SFltb_leb (a b : spec_float) : SFltb a b = true -> SFleb a b = true.
Proof. unfold SFltb, SFleb. destruct (SFcompare a b) as [[]|]; auto. Qed.

(** What [np.clip(x, -1, 1)] returns is NaN or lies between -1 and 1. *)
Lemma clip_range (x : spec_float) :
  let c := clip x (of_Z (-1)) one in
  fisnan c = true \/ ((of_Z (-1) <=? c)%flt = true /\ (c <=? one)%flt = true).
Proof.
  cbv zeta. unfold clip.
  destruct (fisnan x) eqn:N; [left; now rewrite N|].
  destruct (of_Z (-1) <? x)%flt eqn:L.
  - rewrite N. destruct (x <? one)%flt eqn:H; right.
    + split; now apply SFltb_leb.
    + split; reflexivity.
  - right. split; reflexivity.
Qed.

Lemma np_corrcoef01_not_inf (x y : list spec_float) : is_inf (np_corrcoef01 x y) = false.
Proof.
  unfold np_corrcoef01. destruct (np_cov x y) as [[c00 c01] c11]. apply clip_not_inf.
Qed.

Lemma np_corrcoef01_range (x y : list spec_float) :
  fisnan (np_corrcoef01 x y) = true \/
  ((of_Z (-1) <=? np_corrcoef01 x y)%flt = true /\ (np_corrcoef01 x y <=? one)%flt = true).
Proof.
  unfold np_corrcoef01. destruct (np_cov x y) as [[c00 c01] c11]. apply clip_range.
Qed.

Lemma correlation_on_range (x y : list spec_float) (valid : list bool) (v : spec_float) :
  correlation_on x y valid = Some v ->
  is_inf v = false /\
  (fisnan v = true \/ ((of_Z (-1) <=? v)%flt = true /\ (v <=? one)%flt = true)).
Proof.
  unfold correlation_on. destruct (_ <=? 1).
  - intros E; injection E as <-. split; [reflexivity|now left].
  - destruct (mask_select x valid), (mask_select y valid); try discriminate.
    intros E; injection E as <-.
    split; [apply np_corrcoef01_not_inf|apply np_corrcoef01_range].
Qed.

End B64Clip.

(** * Exact arithmetic: numpy's sum is the sum *)

Section ExactSum.
Import Exact.
Open Scope Q_scope.

Lemma finite_xval (a : xq) : finite a -> is_fin a (xval a).
Proof. intros [q H]. destruct a; simpl in *; try tauto. reflexivity. Qed.

Lemma is_fin_xval (a : xq) (q : Q) : is_fin a q -> xval a == q.
Proof. destruct a; simpl; tauto. Qed.

Lemma is_fin_finite (a : xq) (q : Q) : is_fin a q -> finite a.
Proof. intros H. now exists q. Qed.

Lemma qsum_app (a b : list Q) : qsum (a ++ b) == qsum a + qsum b.
Proof.
  induction a as [|x a IH]; simpl; [ring|]. rewrite IH. ring.
Qed.

Lemma xsum_app (a b : list xq) : xsum (a ++ b) == xsum a + xsum b.
Proof. unfold xsum. rewrite map_app. apply qsum_app. Qed.

Lemma xsum_cons (x : xq) (a : list xq) : xsum (x :: a) == xval x + xsum a.
Proof. reflexivity. Qed.

Lemma xsum_split (n : nat) (a : list xq) :
  xsum a == xsum (firstn n a) + xsum (skipn n a).
Proof. rewrite <- xsum_app. now rewrite firstn_skipn. Qed.

Lemma Forall_firstn {A : Type} (P : A -> Prop) (n : nat) (l : list A) :
  Forall P l -> Forall P (firstn n l).
Proof. intros H; revert n; induction H; intros [|n]; simpl; constructor; auto. Qed.

Lemma Forall_skipn {A : Type} (P : A -> Prop) (n : nat) (l : list A) :
  Forall P l -> Forall P (skipn n l).
Proof. intros H; revert n; induction H; intros [|n]; simpl; auto. Qed.

Lemma sum_loop_val (a : list xq) (x : xq) (p : Q) :
  Forall finite a -> is_fin x p -> is_fin (sum_loop x a) (p + xsum a).
Proof.
  intros H; revert x p; induction H as [|y a Hy H IH]; intros x p Hx; cbn [sum_loop fold_left].
  - apply (is_fin_eq _ p); auto. unfold xsum. simpl. ring.
  - apply (is_fin_eq _ (p + xval y + xsum a)).
    + apply IH. apply x_add_fin; auto. now apply finite_xval.
    + rewrite xsum_cons. ring.
Qed.

Lemma map2_add_val (r a : list xq) :
  length r = length a -> Forall finite r -> Forall finite a ->
  Forall finite (map2 fadd r a) /\ xsum (map2 fadd r a) == xsum r + xsum a.
Proof.
  intros E Hr; revert a E; induction Hr as [|x r Hx Hr IH]; intros [|y a] E Ha;
    simpl in E; try discriminate.
  - split; [constructor|]. unfold xsum. simpl. ring.
  - inversion Ha as [|? ? Hy Ha']; subst.
    destruct (IH a ltac:(congruence) Ha') as [IH1 IH2].
    pose proof (x_add_fin x y _ _ (finite_xval x Hx) (finite_xval y Hy)) as Hxy.
    cbn [map2]. split.
    + constructor; auto. exact (is_fin_finite _ _ Hxy).
    + rewrite !xsum_cons, IH2, (is_fin_xval _ _ Hxy). ring.
Qed.

Lemma firstn_plus {A : Type} (n m : nat) (l : list A) :
  firstn (n + m) l = firstn n l ++ firstn m (skipn n l).
Proof.
  revert l; induction n as [|n IH]; intros l; simpl; [reflexivity|].
  destruct l as [|x l]; simpl.
  - now rewrite firstn_nil.
  - now rewrite IH.
Qed.

Lemma unrolled_val (k : nat) (r a : list xq) :
  length r = 8%nat -> (8 * k <= length a)%nat ->
  Forall finite r -> Forall finite a ->
  Forall finite (unrolled k r a) /\
  xsum (unrolled k r a) == xsum r + xsum (firstn (8 * k) a).
Proof.
  revert r a; induction k as [|k IH]; intros r a Lr La Hr Ha; cbn [unrolled].
  - split; auto. replace (8 * 0)%nat with 0%nat by lia. simpl firstn.
    unfold xsum at 3. simpl. ring.
  - assert (L8 : length (firstn 8 a) = 8%nat) by (rewrite length_firstn; lia).
    destruct (map2_add_val r (firstn 8 a) ltac:(congruence) Hr (Forall_firstn _ 8 a Ha))
      as [H1 H2].
    destruct (IH (map2 fadd r (firstn 8 a)) (skipn 8 a)) as [H3 H4]; auto.
    + rewrite map2_length; congruence.
    + rewrite length_skipn. lia.
    + now apply Forall_skipn.
    + split; auto. rewrite H4, H2.
      replace (8 * S k)%nat with (8 + 8 * k)%nat by lia.
      rewrite (firstn_plus 8 (8 * k) a), xsum_app. ring.
Qed.

Lemma tree8_val (r : list xq) :
  length r = 8%nat -> Forall finite r -> is_fin (tree8 r) (xsum r).
Proof.
  intros L H.
  do 8 (destruct r as [|? r]; [discriminate L|]).
  destruct r; [|discriminate L].
  repeat match goal with H : Forall _ (_ :: _) |- _ =>
    let Hx := fresh "Hx" in let Hr := fresh "Hr" in
    inversion H as [|? ? Hx Hr]; subst; clear H; apply finite_xval in Hx end.
  cbn [tree8].
  eapply is_fin_eq.
  - repeat apply x_add_fin; eassumption.
  - unfold xsum, qsum. simpl. ring.
Qed.

Lemma block_sum_val (a : list xq) :
  (8 <= length a)%nat -> Forall finite a -> is_fin (block_sum a) (xsum a).
Proof.
  intros L H. unfold block_sum.
  set (n := length a). set (full := (n - n mod 8)%nat).
  pose proof (Nat.div_mod_eq n 8) as D.
  pose proof (Nat.mod_upper_bound n 8 ltac:(lia)) as M.
  assert (E' : (full / 8 = n / 8)%nat).
  { unfold full. replace (n - n mod 8)%nat with (n / 8 * 8)%nat by lia.
    now rewrite Nat.div_mul. }
  assert (Hn8 : (1 <= n / 8)%nat).
  { destruct (n / 8)%nat eqn:E; lia. }
  destruct (unrolled_val (full / 8 - 1) (firstn 8 a) (skipn 8 a)) as [H1 H2].
  - rewrite length_firstn. lia.
  - rewrite length_skipn. fold n. rewrite E'. lia.
  - now apply Forall_firstn.
  - now apply Forall_skipn.
  - eapply is_fin_eq.
    + apply sum_loop_val; [now apply Forall_skipn|].
      apply tree8_val; [|exact H1].
      apply unrolled_length.
      * rewrite length_firstn. lia.
      * rewrite length_skipn. fold n. rewrite E'. lia.
    + rewrite H2. rewrite (xsum_split full a).
      replace full with (8 + 8 * (full / 8 - 1))%nat at 3 by (unfold full in *; lia).
      rewrite (firstn_plus 8 (8 * (full / 8 - 1)) a), xsum_app. ring.
Qed.

Lemma pairwise_sum_fuel_val (fuel : nat) (a : list xq) :
  Forall finite a -> is_fin (pairwise_sum_fuel fuel a) (xsum a).
Proof.
  revert a; induction fuel as [|fuel IH]; intros a H; cbn [pairwise_sum_fuel];
    destruct (length a <? 8)%nat eqn:E8.
  - eapply is_fin_eq; [apply sum_loop_val; [exact H|exact is_fin_zero]|ring].
  - apply Nat.ltb_ge in E8. destruct (length a <=? 128)%nat; now apply block_sum_val.
  - eapply is_fin_eq; [apply sum_loop_val; [exact H|exact is_fin_zero]|ring].
  - apply Nat.ltb_ge in E8. destruct (length a <=? 128)%nat; [now apply block_sum_val|].
    eapply is_fin_eq.
    + apply x_add_fin; apply IH; [apply Forall_firstn | apply Forall_skipn]; exact H.
    + symmetry. apply xsum_split.
Qed.

(** In exact arithmetic the pairwise summation of numpy gives the sum of the
    values. *)
Lemma np_sum_val (a : list xq) : Forall finite a -> is_fin (np_sum a) (xsum a).
Proof.
  intros H. unfold np_sum, pairwise_sum.
  eapply is_fin_eq.
  - apply x_add_fin; [exact is_fin_zero|]. now apply pairwise_sum_fuel_val.
  - ring.
Qed.

Lemma xsum_map (G : xq -> xq) (g : Q -> Q) (v : list xq) :
  (forall x, finite x -> is_fin (G x) (g (xval x))) ->
  Forall finite v ->
  Forall finite (map G v) /\ xsum (map G v) == qsum (map g (map xval v)).
Proof.
  intros HG H. induction H as [|x v Hx H [IH1 IH2]]; cbn [map].
  - split; [constructor|reflexivity].
  - pose proof (HG x Hx) as Hgx. split.
    + constructor; [exact (is_fin_finite _ _ Hgx)|exact IH1].
    + rewrite xsum_cons, IH2, (is_fin_xval _ _ Hgx). reflexivity.
Qed.

Lemma of_nat_fin (n : nat) : is_fin (of_nat n) (inject_Z (Z.of_nat n)).
Proof. exact (is_fin_of_Z _). Qed.

Lemma inject_Z_of_nat_pos (n : nat) : (0 < n)%nat -> 0 < inject_Z (Z.of_nat n).
Proof.
  intros L. change 0 with (inject_Z 0). rewrite <- Zlt_Qlt. lia.
Qed.

(** Over the rationals the mean of the source is the mean. *)
Lemma sample_mean_val (a : list xq) :
  Forall finite a -> (1 <= length a)%nat ->
  is_fin (sample_mean a) (q_mean (map xval a)).
Proof.
  intros H L. unfold sample_mean, q_mean. rewrite length_map.
  pose proof (inject_Z_of_nat_pos (length a) L) as P.
  apply x_div_fin; [now apply np_sum_val|apply of_nat_fin|lra].
Qed.

(** Over the rationals the two-pass variance of the source is the sample
    variance, with the denominator [n - 1]. *)
Lemma sample_variance_val (a : list xq) :
  Forall finite a -> (2 <= length a)%nat ->
  is_fin (sample_variance a) (q_variance (map xval a)).
Proof.
  intros H L. unfold sample_variance, q_variance. rewrite length_map.
  pose proof (sample_mean_val a H ltac:(lia)) as Hm.
  pose proof (inject_Z_of_nat_pos (length a - 1) ltac:(lia)) as P.
  destruct (xsum_map (fun v => ((v - sample_mean a) * (v - sample_mean a))%flt)
              (fun q => (q - q_mean (map xval a)) * (q - q_mean (map xval a))) a)
    as [HS ES]; auto.
  { intros x Hx. apply finite_xval in Hx. apply x_mul_fin; apply x_sub_fin; auto. }
  apply x_div_fin; [|apply of_nat_fin|lra].
  eapply is_fin_eq; [apply np_sum_val; exact HS|exact ES].
Qed.

End ExactSum.

(** * The claims *)

Section Claims.
Import B64 Exact.
Local Open Scope Q_scope.

(** ** C1: Omega over the threshold *)


(** In binary64 the order can also be lost to overflow: with the returns
    M, M, -M, -M (M the largest float) both sums are +inf at threshold 0 and
    Omega is NaN, which is not >= itself.  The amended claim is therefore
    stated in exact arithmetic. *)
Remark omega_ratio_overflow_nan :
  let m := SFmax_float prec emax in
  omega_ratio [m; m; SFopp m; SFopp m] (of_Z 0) = (nan : spec_float).
Proof. vm_compute. reflexivity. Qed.



(** ** C2: maximum drawdown *)




Local Close Scope Q_scope.

(** ** C3: zero variance, volatility and Sharpe *)

(** C3 at twelve months of 1%: the pairwise sum of the twelve values is
    0.11999999999999998 and the mean 0.009999999999999998, one unit in the
    last place below 0.01, so every deviation is 2^-59 and the volatility is
    6.28e-18 instead of 0.  The guard [vol == 0] of [sharpe_ratio] is
    therefore not taken and the quotient is returned.  The same happens at
    0.1, 0.1, 0.1 (mean 0.10000000000000002, volatility 5.89e-17).  With two
    equal values the mean is exact and the volatility is 0. *)
Theorem volatility_constant_series_not_zero :
  let year := repeat (dec 1 100) 12 in
  let returns := [dec 1 10; dec 1 10; dec 1 10] in
  dec 1 100 = S754_finite false 5764607523034235 (-59) /\
  sample_mean year = S754_finite false 5764607523034234 (-59) /\
  volatility year = S754_finite false 8147318274530360 (-110) /\
  (volatility year == zero)%flt = false /\
  (forall (pow_F : Pow spec_float) (r : spec_float),
     sharpe_ratio year (Scalar r) =
     Some ((annualized_return year - r) / volatility year)%flt) /\
  dec 1 10 = S754_finite false 7205759403792794 (-56) /\
  sample_mean returns = S754_finite false 7205759403792795 (-56) /\
  volatility returns = S754_finite false 4776788754394329 (-106) /\
  (forall (pow_F : Pow spec_float) (r : spec_float),
     sharpe_ratio returns (Scalar r) =
     Some ((annualized_return returns - r) / volatility returns)%flt) /\
  volatility [dec 1 10; dec 1 10] = S754_zero false.
Proof.
  cbv zeta.
  assert (E12 : volatility (repeat (dec 1 100) 12) =
                S754_finite false 8147318274530360 (-110)) by (vm_compute; reflexivity).
  assert (E3 : volatility [dec 1 10; dec 1 10; dec 1 10] =
               S754_finite false 4776788754394329 (-106)) by (vm_compute; reflexivity).
  split; [vm_compute; reflexivity|].
  split; [vm_compute; reflexivity|].
  split; [exact E12|].
  split; [rewrite E12; reflexivity|].
  split; [intros pow_F r; unfold sharpe_ratio, sharpe_of; rewrite E12; reflexivity|].
  split; [vm_compute; reflexivity|].
  split; [vm_compute; reflexivity|].
  split; [exact E3|].
  split; [intros pow_F r; unfold sharpe_ratio, sharpe_of; rewrite E3; reflexivity|].
  vm_compute; reflexivity.
Qed.

(** ** C4: tracking error *)

(** C4, as stated, fails on a date at which both series are infinite: the
    date is usable (neither value is missing), its active return
    [inf - inf] is NaN, and the sample standard deviation of the three
    active returns NaN, 1, 2 is NaN; the code drops the NaN difference and
    returns the deviation of 1, 2 alone. *)
Lemma tracking_error_infinite_pair :
  let fund := [S754_infinity false; of_Z 1; of_Z 2] : list spec_float in
  let benchmark := [S754_infinity false; of_Z 0; of_Z 0] : list spec_float in
  length (usable_pairs fund benchmark) = 3 /\
  tracking_error_spec fund benchmark = nan /\
  tracking_error fund benchmark = Some (S754_finite false 5515760546423087 (-51)) /\
  tracking_error fund benchmark <> Some (tracking_error_spec fund benchmark).
Proof.
  cbv zeta.
  assert (E : tracking_error [S754_infinity false; of_Z 1; of_Z 2]
                [S754_infinity false; of_Z 0; of_Z 0] =
              Some (S754_finite false 5515760546423087 (-51))) by (vm_compute; reflexivity).
  assert (E' : tracking_error_spec [S754_infinity false; of_Z 1; of_Z 2]
                 [S754_infinity false; of_Z 0; of_Z 0] = (nan : spec_float))
    by (vm_compute; reflexivity).
  split; [reflexivity|]. split; [exact E'|]. split; [exact E|].
  rewrite E, E'. discriminate.
Qed.

(** C4, amended: for two series of equal length whose values are finite
    numbers or missing, the tracking error is the sample standard deviation
    (denominator n - 1) of the active returns of the usable pairs, times the
    square root of 12, and it is undefined when at most one usable pair
    remains.  The statistic is numpy's float64 evaluation
    ([tracking_error_spec]: the square root of [sample_variance], rounded
    once per operation); over the rationals [sample_variance] is the
    textbook sample variance [q_variance]. *)
Theorem tracking_error_usable_pairs :
  (forall fund benchmark : list spec_float,
     length fund = length benchmark ->
     Forall (fun r => B64.is_obs r = true) fund ->
     Forall (fun r => B64.is_obs r = true) benchmark ->
     tracking_error fund benchmark = Some (tracking_error_spec fund benchmark) /\
     (length (usable_pairs fund benchmark) <= 1 ->
      tracking_error fund benchmark = Some nan))
  /\
  (forall a : list xq,
     Forall finite a -> 2 <= length a ->
     is_fin (sample_variance a) (q_variance (map xval a)) /\
     is_fin (sample_mean a) (q_mean (map xval a))).
Proof.
  split.
  - intros fund benchmark E Hf Hb.
    pose proof (tracking_error_refines_spec fund benchmark E Hf Hb) as H.
    split; [exact H|].
    intros L. rewrite H. unfold tracking_error_spec. rewrite length_map.
    apply Nat.leb_le in L. now rewrite L.
  - intros a H L. split.
    + now apply sample_variance_val.
    + apply sample_mean_val; [exact H|lia].
Qed.

Lemma tracking_error_usable_pairs_witness :
  let fund := [dec 1 100; dec 2 100; nan; dec (-1) 100; dec 3 100] in
  let benchmark := [dec 2 100; dec 1 100; dec 1 100; nan; dec 1 100] in
  (tracking_error fund benchmark = Some (tracking_error_spec fund benchmark) /\
   (length (usable_pairs fund benchmark) <= 1 -> tracking_error fund benchmark = Some nan))
  /\
  is_fin (sample_variance [XFin (1 # 100); XFin (-2 # 100); XFin (3 # 100)])
         (q_variance (map xval [XFin (1 # 100); XFin (-2 # 100); XFin (3 # 100)])).
Proof.
  destruct tracking_error_usable_pairs as [H1 H2]. split.
  - apply (H1 [dec 1 100; dec 2 100; nan; dec (-1) 100; dec 3 100]
              [dec 2 100; dec 1 100; dec 1 100; nan; dec 1 100]).
    + reflexivity.
    + repeat constructor.
    + repeat constructor.
  - apply (H2 [XFin (1 # 100); XFin (-2 # 100); XFin (3 # 100)]).
    + repeat constructor; eexists; reflexivity.
    + simpl. lia.
Defined.

(** ** C5: beta *)

(** C5 at a benchmark of twelve months of 1%: the sample variance of the
    benchmark is exactly 0 and the claim asks for the undefined marker.  The
    variance that the code computes is 3.28e-36 (the rounded mean is one
    unit in the last place below 0.01, as in C3), the guard [var == 0] is
    not taken and beta is the covariance over that number: whatever finite
    covariance the inner product delivers, the quotient is not NaN, and with
    the inner product taken left to right it is 0.5.  With two equal
    benchmark values the mean is exact, the computed variance is 0 and the
    guard returns NaN: that is the case the guard was written for. *)
Theorem beta_constant_benchmark_defined :
  let fund12 := map (fun z => dec z 1000) [10; -20; 15; 0; -10; 25; 5; -5; 30; 12; -8; 7]%Z in
  let benchmark12 := repeat (dec 1 100) 12 in
  (q_variance (map b64_value benchmark12) == 0)%Q /\
  length (usable_pairs fund12 benchmark12) = 12 /\
  np_var 1 benchmark12 = S754_finite false 4913017775313268 (-170) /\
  (np_var 1 benchmark12 == zero)%flt = false /\
  beta fund12 benchmark12 =
    Some (np_cov01 fund12 benchmark12 / np_var 1 benchmark12)%flt /\
  (forall c : spec_float,
     is_number c = true -> fisnan (c / np_var 1 benchmark12)%flt = false) /\
  beta fund12 benchmark12 = Some (dec 1 2) /\
  (q_variance (map b64_value [dec 1 100; dec 1 100]) == 0)%Q /\
  np_var 1 [dec 1 100; dec 1 100] = zero /\
  beta [dec 1 100; dec 2 100] [dec 1 100; dec 1 100] = Some nan.
Proof.
  cbv zeta.
  assert (V : np_var 1 (repeat (dec 1 100) 12) =
              S754_finite false 4913017775313268 (-170)) by (vm_compute; reflexivity).
  split; [vm_compute; reflexivity|].
  split; [vm_compute; reflexivity|].
  split; [exact V|].
  split; [rewrite V; reflexivity|].
  split; [vm_compute; reflexivity|].
  split.
  { intros c Hc. rewrite V.
    destruct c as [sc|sc| |sc mc ec]; try discriminate Hc; [reflexivity|].
    cbn [fdiv fisnan b64_arith SFdiv].
    destruct (SFdiv_core_binary prec emax (Z.pos mc) ec 4913017775313268 (-170))
      as [[mz ez] lz] eqn:D.
    apply binary_round_aux_notnan.
    unfold SFdiv_core_binary in D.
    destruct (Z.div_eucl _ _) as [q r] eqn:Q in D.
    injection D as <- _ _.
    match type of Q with Z.div_eucl ?n ?d = _ =>
      assert (Hq : q = (n / d)%Z) by (unfold Z.div; now rewrite Q);
      assert (Hn : (0 <= n)%Z)
    end.
    { destruct (_ - _ - _)%Z; try lia. apply Z.shiftl_nonneg. lia. }
    rewrite Hq. apply Z.div_pos; [exact Hn|lia]. }
  split; [vm_compute; reflexivity|].
  split; [vm_compute; reflexivity|].
  split; vm_compute; reflexivity.
Qed.

(** ** C6: R squared *)

(** C6 at a benchmark of twelve months of 1%: the computed sample variance
    of the benchmark is 3.28e-36, not 0 (the rounded mean is not 0.01, as in
    C3, and the variance is a sum of twelve equal positive squares), the
    correlation is a number and R squared is its square, not the undefined
    marker.  And at fund 0, 1 and benchmark 0, 2^-600 the squared
    deviations of the benchmark underflow, its sample variance is exactly 0
    and [beta] returns NaN by its guard; [r_squared] has no guard: the
    covariance 2^-601 divided by the standard deviation 0 is +inf, clipped to
    1, and R squared is [1 ** 2]. *)
Theorem r_squared_zero_variance_defined :
  let fund12 := map (fun z => dec z 1000) [10; -20; 15; 0; -10; 25; 5; -5; 30; 12; -8; 7]%Z in
  let benchmark12 := repeat (dec 1 100) 12 in
  let fund := [of_Z 0; of_Z 1] : list spec_float in
  let benchmark := [of_Z 0; pow2 (-600)] in
  (sample_variance benchmark12 == zero)%flt = false /\
  fisnan (np_corrcoef01 fund12 benchmark12) = false /\
  (forall pow_F : Pow spec_float,
     r_squared fund12 benchmark12 = Some (fpow (np_corrcoef01 fund12 benchmark12) (of_Z 2))) /\
  (sample_variance benchmark == zero)%flt = true /\
  beta fund benchmark = Some nan /\
  np_corrcoef01 fund benchmark = one /\
  (forall pow_F : Pow spec_float, r_squared fund benchmark = Some (fpow one (of_Z 2))).
Proof.
  cbv zeta.
  split; [vm_compute; reflexivity|].
  split; [vm_compute; reflexivity|].
  split; [intros pow_F; reflexivity|].
  split; [vm_compute; reflexivity|].
  split; [vm_compute; reflexivity|].
  split; [vm_compute; reflexivity|].
  intros pow_F; reflexivity.
Qed.

(** ** C7: annualized return over one year *)

(** C7: twelve months of the same return [r], none missing.  The exponent
    12 / 12 is exactly 1 and [pow(x, 1) = x], so the annualized return is the
    product of the twelve factors [1 + r], minus 1: in exact arithmetic this
    is [(1 + r)^12 - 1], in binary64 it is that expression evaluated with one
    rounding per operation. *)
Theorem annualized_return_constant_year :
  (forall (pow_F : Pow spec_float), (forall x : spec_float, fpow x one = x) ->
   forall r : spec_float, fisnan r = false ->
   annualized_return (repeat r 12) = (np_prod (repeat (one + r)%flt 12) - one)%flt)
  /\
  (forall (pow_F : Pow xq), (forall x : xq, fpow x one = x) ->
   forall q : Q,
   is_fin (annualized_return (repeat (XFin q) 12)) ((1 + q) ^ 12 - 1)%Q).
Proof.
  split.
  - intros pow_F Hpow r Hr. apply annualized_return_year; auto.
  - intros pow_F Hpow q.
    rewrite (annualized_return_year Hpow eq_refl (XFin q) eq_refl).
    apply x_sub_fin; [|exact is_fin_one].
    apply np_prod_year_exact.
    apply x_add_fin; [exact is_fin_one|]. cbn. reflexivity.
Qed.

Lemma annualized_return_constant_year_witness :
  @annualized_return _ _ pow_unit_exponent (repeat (dec 1 100) 12) =
  (np_prod (repeat (one + dec 1 100)%flt 12) - one)%flt.
Proof.
  apply (proj1 annualized_return_constant_year pow_unit_exponent).
  - intros x. reflexivity.
  - reflexivity.
Defined.

(** ** C8: infinite results *)




(** ** C9: Omega when every return is the threshold *)

(** C9: when the series has at least one value and every value equals the
    (finite) threshold, both sums are zero and Omega is the sentinel 1000,
    not the undefined marker. *)
Theorem omega_ratio_all_at_threshold (returns : list spec_float) (threshold : spec_float) :
  is_inf threshold = false ->
  (exists r, In r returns /\ fisnan r = false) ->
  (forall r, In r returns -> fisnan r = false -> (r == threshold)%flt = true) ->
  (omega_gains (filter notnan returns) threshold == zero)%flt = true /\
  (omega_losses (filter notnan returns) threshold == zero)%flt = true /\
  omega_ratio returns threshold = of_Z 1000 /\
  fisnan (omega_ratio returns threshold) = false.
Proof.
  intros Ht Hex Hall.
  destruct (omega_ratio_at_threshold_b64 returns threshold Ht Hex Hall) as (Hg & Hl & E).
  rewrite E. repeat split; auto.
Qed.

Lemma omega_ratio_all_at_threshold_witness :
  omega_ratio [dec 1 100; nan; dec 1 100] (dec 1 100) = (of_Z 1000 : spec_float).
Proof.
  apply (omega_ratio_all_at_threshold [dec 1 100; nan; dec 1 100] (dec 1 100)).
  - reflexivity.
  - exists (dec 1 100). split; [simpl; tauto | reflexivity].
  - intros r [E|[E|[E|[]]]] Hr; subst r; try discriminate Hr; vm_compute; reflexivity.
Defined.

(** ** C10: tracking error is symmetric *)

(** C10: the tracking error of the fund against the benchmark is the
    tracking error of the benchmark against the fund, bit for bit: the
    active returns change sign, their mean changes sign, the deviations
    change sign and the squares are the same. *)
Theorem tracking_error_symmetric (returns benchmark_returns : list spec_float) :
  tracking_error returns benchmark_returns = tracking_error benchmark_returns returns.
Proof.
  unfold tracking_error. rewrite (broadcast_swap returns benchmark_returns).
  destruct (broadcast returns benchmark_returns) as [pairs|]; cbn [option_map]; [|reflexivity].
  pose proof (filter_notnan_opp_rel _ _ (active_returns_swap pairs)) as H.
  rewrite <- (Forall2_same_length opp_rel _ _ H).
  destruct (_ <=? 1); [reflexivity|].
  unfold np_std. now rewrite (np_var_opp_rel 1 _ _ H).
Qed.

End Claims.

(** * Further properties of the metrics *)

(** ** binary64: the order of the comparisons *)

Section B64Order.
Import B64.

Lemma SFleb_notnan (a b : spec_float) :
  SFleb a b = true -> b64_isnan a = false /\ b64_isnan b = false.
Proof. destruct a, b; try discriminate; auto. Qed.

Lemma SFleb_refl (a : spec_float) : b64_isnan a = false -> SFleb a a = true.
Proof.
  destruct a as [s|s| |s m e]; try discriminate; intros _; unfold SFleb; cbn [SFcompare].
  - reflexivity.
  - now destruct s.
  - change (Pos.compare_cont Eq m m) with (m ?= m)%positive.
    rewrite Z.compare_refl, Pos.compare_refl. now destruct s.
Qed.

Lemma SFleb_total (a b : spec_float) :
  b64_isnan a = false -> b64_isnan b = false -> SFleb a b = true \/ SFleb b a = true.
Proof.
  destruct a as [sa|sa| |sa ma ea], b as [sb|sb| |sb mb eb]; try discriminate;
    intros _ _; unfold SFleb; cbn [SFcompare];
    try (destruct sa; auto; fail); try (destruct sb; auto; fail);
    try (destruct sa, sb; auto; fail); auto.
  change (Pos.compare_cont Eq ma mb) with (ma ?= mb)%positive.
  change (Pos.compare_cont Eq mb ma) with (mb ?= ma)%positive.
  rewrite (Z.compare_antisym ea eb), (Pos.compare_antisym ma mb).
  destruct sa, sb; auto; destruct (ea ?= eb)%Z; cbn; auto;
    destruct (ma ?= mb)%positive; cbn; auto.
Qed.

Lemma SFleb_trans (a b c : spec_float) :
  SFleb a b = true -> SFleb b c = true -> SFleb a c = true.
Proof.
  destruct a as [sa|sa| |sa ma ea], b as [sb|sb| |sb mb eb], c as [sc|sc| |sc mc ec];
    try discriminate; unfold SFleb; cbn [SFcompare];
    try (destruct sa; try discriminate; try reflexivity; fail);
    try (destruct sb; try discriminate; try reflexivity; fail);
    try (destruct sc; try discriminate; try reflexivity; fail);
    try (destruct sa, sb; try discriminate; try reflexivity; fail);
    try (destruct sa, sc; try discriminate; try reflexivity; fail);
    try (destruct sb, sc; try discriminate; try reflexivity; fail);
    try (destruct sa, sb, sc; try discriminate; try reflexivity; fail);
    try reflexivity.
  change (Pos.compare_cont Eq ma mb) with (ma ?= mb)%positive.
  change (Pos.compare_cont Eq mb mc) with (mb ?= mc)%positive.
  change (Pos.compare_cont Eq ma mc) with (ma ?= mc)%positive.
  destruct sa, sb, sc; try discriminate; try reflexivity;
    destruct (Z.compare_spec ea eb), (Z.compare_spec eb ec), (Z.compare_spec ea ec);
    try discriminate; try reflexivity; try lia;
    destruct (Pos.compare_spec ma mb), (Pos.compare_spec mb mc), (Pos.compare_spec ma mc);
    cbn; try discriminate; try reflexivity; try lia.
Qed.

End B64Order.

(** ** Worst month *)

Section B64WorstMonth.
Import B64.

Lemma fmin_spec (a b : spec_float) :
  b64_isnan (fmin a b) = b64_isnan a && b64_isnan b /\
  (fmin a b = a \/ fmin a b = b) /\
  (b64_isnan a = false -> SFleb (fmin a b) a = true) /\
  (b64_isnan b = false -> SFleb (fmin a b) b = true).
Proof.
  unfold fmin. cbn [fleb fisnan b64_arith].
  destruct (SFleb a b) eqn:L; cbn [orb].
  - destruct (SFleb_notnan a b L) as [Na Nb]. rewrite Na.
    repeat split; auto. intros _. now apply SFleb_refl.
  - destruct (b64_isnan b) eqn:Nb.
    + rewrite Bool.andb_true_r. repeat split; auto; try discriminate.
      intros Na. now apply SFleb_refl.
    + rewrite Nb, Bool.andb_false_r. repeat split; auto.
      * intros Na. destruct (SFleb_total a b Na Nb) as [H|H]; [congruence|exact H].
      * intros _. now apply SFleb_refl.
Qed.

Lemma fold_fmin_spec (l : list spec_float) (acc : spec_float) :
  let r := fold_left fmin l acc in
  b64_isnan r = b64_isnan acc && forallb b64_isnan l /\
  (r = acc \/ In r l) /\
  (b64_isnan acc = false -> SFleb r acc = true) /\
  (forall y, In y l -> b64_isnan y = false -> SFleb r y = true).
Proof.
  cbv zeta. revert acc; induction l as [|y l IH]; intros acc; cbn [fold_left forallb].
  - rewrite Bool.andb_true_r.
    split; [reflexivity|split; [now left|split]].
    + intros N. now apply SFleb_refl.
    + intros y [].
  - destruct (IH (fmin acc y)) as (Hn & Hin & Hacc & Hall).
    destruct (fmin_spec acc y) as (Fn & Fin & Fa & Fy).
    assert (Nr : forall z, b64_isnan z = false -> SFleb (fmin acc y) z = true ->
                 SFleb (fold_left fmin l (fmin acc y)) z = true).
    { intros z Nz L. destruct (SFleb_notnan _ _ L) as [Nm _].
      apply (SFleb_trans _ (fmin acc y)); auto. }
    split; [|split; [|split]].
    + rewrite Hn, Fn. now rewrite Bool.andb_assoc.
    + destruct Hin as [E|Hin]; [|right; now right].
      rewrite E. destruct Fin as [E'|E']; rewrite E'; [now left|right; now left].
    + intros Na. apply Nr; auto.
    + intros z [<-|Hz] Nz; [apply Nr; auto|now apply Hall].
Qed.

(** Worst month is undefined exactly when every value is missing (an empty
    series included); otherwise it is one of the values of the series, not
    missing, and no value of the series is below it. *)
Theorem worst_month_is_minimum (returns : list spec_float) :
  (fisnan (worst_month returns) = true <-> forallb fisnan returns = true) /\
  (forallb fisnan returns = false ->
   In (worst_month returns) returns /\
   forall y, In y returns -> fisnan y = false -> (worst_month returns <=? y)%flt = true).
Proof.
  unfold worst_month. cbn [fisnan fleb b64_arith].
  destruct (forallb b64_isnan returns) eqn:A.
  - split; [split; reflexivity|discriminate].
  - destruct returns as [|x l]; [discriminate|].
    cbn [np_nanmin]. destruct (fold_fmin_spec l x) as (Hn & Hin & Hacc & Hall).
    cbn [forallb] in A.
    split; [split; [|discriminate]|intros _; split].
    + intros N. rewrite Hn in N. congruence.
    + destruct Hin as [E|Hin]; [left; now rewrite E|now right].
    + intros y [<-|Hy] Ny; [now apply Hacc|now apply Hall].
Qed.

Lemma worst_month_is_minimum_witness :
  let returns := [S754_nan; dec 1 100; dec (-2) 100; S754_nan; dec 3 100] in
  In (worst_month returns) returns /\
  forall y, In y returns -> fisnan y = false -> (worst_month returns <=? y)%flt = true.
Proof.
  apply (proj2 (worst_month_is_minimum
                  [S754_nan; dec 1 100; dec (-2) 100; S754_nan; dec 3 100])).
  reflexivity.
Defined.

End B64WorstMonth.

(** ** binary64: results that are never negative *)

Section B64Nonneg.
Import B64.

Lemma binary_round_aux_cases (s : bool) (m e : Z) (l : location) :
  let r := binary_round_aux prec emax s m e l in
  r = S754_nan \/ r = S754_zero s \/ r = S754_infinity s \/
  exists m' e', r = S754_finite s m' e'.
Proof.
  cbv zeta. unfold binary_round_aux.
  destruct (shr_fexp prec emax m e l) as [mrs' e'].
  destruct (shr_fexp prec emax _ e' loc_Exact) as [mrs'' e''].
  destruct (shr_m mrs''); auto.
  destruct (e'' <=? emax - prec)%Z; eauto 6.
Qed.

Lemma nonneg_round_aux (m e : Z) (l : location) :
  nonneg_or_nan (binary_round_aux prec emax false m e l).
Proof.
  destruct (binary_round_aux_cases false m e l) as [E|[E|[E|(m' & e' & E)]]];
    rewrite E; [now left|now right|now right|now right].
Qed.

Lemma nonneg_inv (x : spec_float) :
  nonneg_or_nan x ->
  x = S754_nan \/ (exists s, x = S754_zero s) \/ x = S754_infinity false \/
  exists m e, x = S754_finite false m e.
Proof.
  intros [N|L].
  - destruct x; try discriminate. now left.
  - destruct x as [s|s| |s m e]; try discriminate; eauto.
    + destruct s; [discriminate|auto].
    + destruct s; [discriminate|eauto 6].
Qed.

Lemma nonneg_zero (s : bool) : nonneg_or_nan (S754_zero s).
Proof. now right. Qed.

Lemma nonneg_nan : nonneg_or_nan S754_nan.
Proof. now left. Qed.

Lemma nonneg_sqrt (x : spec_float) : nonneg_or_nan (SFsqrt prec emax x).
Proof.
  destruct x as [s|s| |s m e]; cbn [SFsqrt].
  - apply nonneg_zero.
  - destruct s; [now left|now right].
  - now left.
  - destruct s; [now left|].
    destruct (SFsqrt_core_binary prec emax (Z.pos m) e) as [[mz ez] lz].
    apply nonneg_round_aux.
Qed.

Lemma nonneg_add (x y : spec_float) :
  nonneg_or_nan x -> nonneg_or_nan y -> nonneg_or_nan (SFadd prec emax x y).
Proof.
  intros Hx Hy.
  destruct (nonneg_inv x Hx) as [->|[[sx ->]|[->|(mx & ex & ->)]]];
    destruct (nonneg_inv y Hy) as [->|[[sy ->]|[->|(my & ey & ->)]]];
    try (now left); try (now right);
    try (destruct sx, sy; now right).
  cbn [SFadd cond_Zopp Z.add binary_normalize]. unfold binary_round.
  destruct (shl_align _ _ _) as [mz ez]. apply nonneg_round_aux.
Qed.

Lemma nonneg_mul (x y : spec_float) :
  nonneg_or_nan x -> nonneg_or_nan y -> nonneg_or_nan (SFmul prec emax x y).
Proof.
  intros Hx Hy.
  destruct (nonneg_inv x Hx) as [->|[[sx ->]|[->|(mx & ex & ->)]]];
    destruct (nonneg_inv y Hy) as [->|[[sy ->]|[->|(my & ey & ->)]]];
    try (now left); try (now right).
  cbn [SFmul xorb]. apply nonneg_round_aux.
Qed.

Lemma nonneg_div (x y : spec_float) :
  nonneg_or_nan x -> nonneg_or_nan y -> SFeqb y (b64_of_Z 0) = false ->
  nonneg_or_nan (SFdiv prec emax x y).
Proof.
  intros Hx Hy Ny.
  destruct (nonneg_inv x Hx) as [->|[[sx ->]|[->|(mx & ex & ->)]]];
    destruct (nonneg_inv y Hy) as [->|[[sy ->]|[->|(my & ey & ->)]]];
    try discriminate Ny; try (now left); try (now right).
  cbn [SFdiv xorb].
  destruct (SFdiv_core_binary prec emax (Z.pos mx) ex (Z.pos my) ey) as [[mz ez] lz].
  apply nonneg_round_aux.
Qed.

Lemma nonneg_positive_part (x : spec_float) : nonneg_or_nan (maximum x zero).
Proof.
  unfold maximum. cbn [fleb fisnan b64_arith].
  destruct (SFleb zero x) eqn:L; cbn [orb].
  - now right.
  - destruct (b64_isnan x) eqn:N; [now left|now right].
Qed.

End B64Nonneg.

Section B64NonnegMetrics.
Import B64.

Lemma sqrt12_nonneg : nonneg_or_nan (fsqrt (of_Z 12)).
Proof. apply nonneg_sqrt. Qed.

Lemma nonneg_zero_b64 : nonneg_or_nan zero.
Proof. right. reflexivity. Qed.

(** Volatility and tracking error are never negative: whatever the input,
    the result is NaN or a float that is not below 0 (+inf on overflow). *)
Theorem volatility_tracking_error_not_negative :
  (forall returns : list spec_float, nonneg_or_nan (volatility returns)) /\
  (forall (returns benchmark_returns : list spec_float) (v : spec_float),
     tracking_error returns benchmark_returns = Some v -> nonneg_or_nan v).
Proof.
  split.
  - intros returns. unfold volatility, np_nanstd.
    apply nonneg_mul; [apply nonneg_sqrt|apply sqrt12_nonneg].
  - intros returns benchmark_returns v. unfold tracking_error.
    destruct (broadcast returns benchmark_returns) as [pairs|]; [|discriminate].
    destruct (_ <=? 1); intros E; injection E as <-.
    + apply nonneg_nan.
    + unfold np_std. apply nonneg_mul; [apply nonneg_sqrt|apply sqrt12_nonneg].
Qed.

Lemma volatility_tracking_error_not_negative_witness :
  nonneg_or_nan (S754_finite false 7292104233706640 (-57)).
Proof.
  apply (proj2 volatility_tracking_error_not_negative
           (map (fun z => dec z 1000) [10; -20; 15; 0; -10; 25; 5; -5; 30; 12; -8; 7]%Z)
           (repeat (dec 1 100) 12)).
  vm_compute. reflexivity.
Defined.

(** Omega is never negative: whatever the returns and the threshold, the
    result is NaN or a float that is not below 0. *)
Theorem omega_ratio_not_negative (returns : list spec_float) (threshold : spec_float) :
  nonneg_or_nan (omega_ratio returns threshold).
Proof.
  unfold omega_ratio.
  destruct (_ =? 0); [apply nonneg_nan|].
  set (l := filter notnan returns).
  assert (G : nonneg_or_nan (omega_gains l threshold)).
  { unfold omega_gains.
    apply (np_sum_closed nonneg_or_nan nonneg_zero_b64 nonneg_add).
    apply Forall_map, Forall_forall. intros r _. apply nonneg_positive_part. }
  assert (L : nonneg_or_nan (omega_losses l threshold)).
  { unfold omega_losses.
    apply (np_sum_closed nonneg_or_nan nonneg_zero_b64 nonneg_add).
    apply Forall_map, Forall_forall. intros r _. apply nonneg_positive_part. }
  destruct (omega_losses l threshold == zero)%flt eqn:E.
  - now right.
  - now apply nonneg_div.
Qed.

End B64NonnegMetrics.

(** ** binary64: a positive count is not zero *)

Section B64Count.
Import B64.

Lemma digits2_pos_bounds (p : positive) :
  (2 ^ (Z.pos (digits2_pos p) - 1) <= Z.pos p < 2 ^ Z.pos (digits2_pos p))%Z.
Proof.
  induction p as [p IH|p IH|]; cbn [digits2_pos].
  - rewrite Pos2Z.inj_succ.
    replace (Z.succ (Z.pos (digits2_pos p)) - 1)%Z with (Z.succ (Z.pos (digits2_pos p) - 1))%Z by lia.
    rewrite !Z.pow_succ_r by lia. lia.
  - rewrite Pos2Z.inj_succ.
    replace (Z.succ (Z.pos (digits2_pos p)) - 1)%Z with (Z.succ (Z.pos (digits2_pos p) - 1))%Z by lia.
    rewrite !Z.pow_succ_r by lia. lia.
  - cbn. lia.
Qed.

Lemma shr_1_m (mrs : shr_record) :
  (0 <= shr_m mrs)%Z -> shr_m (shr_1 mrs) = (shr_m mrs / 2)%Z.
Proof.
  destruct mrs as [m r s]. cbn [shr_m]. intros H.
  destruct m as [|[p|p|]|p]; try lia; cbn [shr_1 shr_m].
  - reflexivity.
  - rewrite Pos2Z.inj_xI. apply Z.div_unique with (r := 1%Z); lia.
  - rewrite Pos2Z.inj_xO. apply Z.div_unique with (r := 0%Z); lia.
  - reflexivity.
Qed.

Lemma iter_shr_m (p : positive) (mrs : shr_record) :
  (0 <= shr_m mrs)%Z ->
  shr_m (iter_pos shr_1 p mrs) = (shr_m mrs / 2 ^ Z.pos p)%Z.
Proof.
  revert mrs; induction p as [p IH|p IH|]; intros mrs H; cbn [iter_pos].
  - pose proof (shr_1_nonneg mrs H) as H1.
    pose proof (iter_pos_invariant shr_1 (fun x => (0 <= shr_m x)%Z) shr_1_nonneg
                  p (shr_1 mrs) H1) as H2.
    rewrite IH, IH, shr_1_m by auto.
    rewrite !Z.div_div by (try apply Z.pow_pos_nonneg; lia).
    f_equal.
    replace (Z.pos p~1) with (Z.pos p + Z.pos p + 1)%Z by lia.
    rewrite !Z.pow_add_r by lia. rewrite Z.pow_1_r. ring.
  - pose proof (iter_pos_invariant shr_1 (fun x => (0 <= shr_m x)%Z) shr_1_nonneg
                  p mrs H) as H2.
    rewrite IH, IH by auto.
    rewrite !Z.div_div by (try apply Z.pow_pos_nonneg; lia).
    f_equal.
    replace (Z.pos p~0) with (Z.pos p + Z.pos p)%Z by lia.
    rewrite !Z.pow_add_r by lia. ring.
  - rewrite shr_1_m by auto. now rewrite Z.pow_1_r.
Qed.

(** Above the smallest exponent the shift of [shr_fexp] leaves a positive
    mantissa positive. *)
Lemma shr_fexp_pos (m e : Z) (l : location) :
  (0 < m)%Z -> (emin prec emax <= e)%Z ->
  (0 < shr_m (fst (shr_fexp prec emax m e l)))%Z /\
  (emin prec emax <= snd (shr_fexp prec emax m e l))%Z.
Proof.
  intros Hm He. unfold shr_fexp, shr.
  assert (Hr : shr_m (shr_record_of_loc m l) = m) by (destruct l as [|[]]; reflexivity).
  destruct m as [|p|p]; try lia. cbn [Zdigits2].
  pose proof (digits2_pos_bounds p) as [B1 B2].
  set (d := Z.pos (digits2_pos p)) in *.
  destruct (fexp prec emax (d + e) - e)%Z as [|k|k] eqn:En; cbn [fst snd];
    try (rewrite Hr; split; lia).
  rewrite iter_shr_m by (rewrite Hr; lia). rewrite Hr.
  unfold fexp in En.
  assert (Hk : (Z.pos k <= d - 1)%Z) by (unfold prec in *; lia).
  split; [|lia].
  apply Z.div_str_pos. split; [apply Z.pow_pos_nonneg; lia|].
  apply Z.le_trans with (2 ^ (d - 1))%Z; [|exact B1].
  apply Z.pow_le_mono_r; lia.
Qed.

Lemma round_nearest_even_ge (m : Z) (l : location) : (m <= round_nearest_even m l)%Z.
Proof.
  destruct l as [|[]]; cbn [round_nearest_even]; try lia.
  destruct (Z.even m); lia.
Qed.

Lemma binary_round_aux_not_zero (s : bool) (m e : Z) (l : location) :
  (0 < m)%Z -> (emin prec emax <= e)%Z ->
  is_zero (binary_round_aux prec emax s m e l) = false.
Proof.
  intros Hm He. unfold binary_round_aux.
  destruct (shr_fexp_pos m e l Hm He) as [H1 E1].
  destruct (shr_fexp prec emax m e l) as [mrs' e']. cbn [fst snd] in H1, E1.
  pose proof (round_nearest_even_ge (shr_m mrs') (loc_of_shr_record mrs')) as G.
  destruct (shr_fexp_pos (round_nearest_even (shr_m mrs') (loc_of_shr_record mrs'))
              e' loc_Exact ltac:(lia) E1) as [H2 _].
  destruct (shr_fexp prec emax _ e' loc_Exact) as [mrs'' e'']. cbn [fst] in H2.
  destruct (shr_m mrs''); try lia.
  destruct (e'' <=? emax - prec)%Z; reflexivity.
Qed.

(** A positive integer converts to a positive float or to +inf. *)
Lemma b64_of_Z_pos (z : Z) :
  (0 < z)%Z ->
  b64_of_Z z = S754_infinity false \/ exists m e, b64_of_Z z = S754_finite false m e.
Proof.
  intros Hz. destruct z as [|p|p]; try lia.
  unfold b64_of_Z. cbn [binary_normalize]. unfold binary_round.
  destruct (shl_align p 0 (fexp prec emax (Z.pos (digits2_pos p) + 0))) as [mz ez] eqn:Es.
  assert (Ez : (emin prec emax <= ez)%Z).
  { unfold shl_align in Es.
    destruct (fexp prec emax (Z.pos (digits2_pos p) + 0) - 0)%Z eqn:En;
      injection Es as <- <-; try (unfold emin, prec, emax; lia).
    unfold fexp. lia. }
  pose proof (binary_round_aux_not_zero false (Z.pos mz) ez loc_Exact ltac:(lia) Ez) as NZ.
  pose proof (binary_round_aux_notnan false (Z.pos mz) ez loc_Exact ltac:(lia)) as NN.
  destruct (binary_round_aux_cases false (Z.pos mz) ez loc_Exact)
    as [E|[E|[E|(m' & e' & E)]]]; rewrite E in NZ, NN |- *;
    try discriminate; eauto.
Qed.

Lemma zero_div_count (n : nat) :
  1 <= n -> (S754_zero false / of_nat n)%flt = S754_zero false.
Proof.
  intros H. unfold of_nat. cbn [of_Z fdiv b64_arith].
  destruct (b64_of_Z_pos (Z.of_nat n) ltac:(lia)) as [E|(m & e & E)]; rewrite E; reflexivity.
Qed.

End B64Count.

(** ** Tracking error of a series against itself *)

Section B64TrackingSelf.
Import B64.

Lemma SFsub_self (x : spec_float) :
  SFsub prec emax x x = if is_number x then S754_zero false else S754_nan.
Proof.
  destruct x as [s|s| |s m e]; cbn [SFsub]; try (now destruct s); try reflexivity.
  now rewrite Z.sub_diag.
Qed.

Lemma active_returns_self (returns : list spec_float) :
  filter notnan (map (fun p => (fst p - snd p)%flt) (combine returns returns)) =
  repeat (S754_zero false) (length (filter is_number returns)).
Proof.
  induction returns as [|x l IH]; [reflexivity|].
  cbn [combine map filter fst snd].
  change (x - x)%flt with (SFsub prec emax x x). rewrite SFsub_self.
  destruct (is_number x); cbn [notnan fisnan b64_arith b64_isnan negb length repeat];
    now rewrite IH.
Qed.

Lemma np_sum_zeros (l : list spec_float) :
  Forall (fun x => x = S754_zero false) l -> np_sum l = S754_zero false.
Proof.
  apply (np_sum_closed (fun x => x = S754_zero false)); [reflexivity|].
  intros x y -> ->. reflexivity.
Qed.

Lemma Forall_repeat {A : Type} (P : A -> Prop) (x : A) (n : nat) :
  P x -> Forall P (repeat x n).
Proof. intros H. induction n; cbn; constructor; auto. Qed.

Lemma np_var_zeros (k : nat) :
  2 <= k -> np_var 1 (repeat (S754_zero false) k) = S754_zero false.
Proof.
  intros Hk. unfold np_var. rewrite repeat_length.
  rewrite (np_sum_zeros (repeat (S754_zero false) k)) by (now apply Forall_repeat).
  rewrite (zero_div_count k) by lia.
  rewrite np_sum_zeros.
  - apply zero_div_count. lia.
  - apply Forall_map, Forall_repeat. reflexivity.
Qed.

(** The tracking error of a series against itself is exactly 0 as soon as two
    of its values are numbers, and undefined otherwise; missing and infinite
    values drop out. *)
Theorem tracking_error_against_itself (returns : list spec_float) :
  tracking_error returns returns =
  Some (if length (filter is_number returns) <=? 1 then nan else S754_zero false).
Proof.
  unfold tracking_error.
  rewrite (broadcast_same_length returns returns eq_refl), active_returns_self.
  rewrite repeat_length.
  destruct (length (filter is_number returns) <=? 1) eqn:E; [reflexivity|].
  apply Nat.leb_gt in E. unfold np_std. rewrite np_var_zeros by lia. reflexivity.
Qed.

End B64TrackingSelf.

(** ** Too few observations, and the two branches of Sharpe *)

Section Insufficient.
Context {F : Type} {arith : Arith F}.

Lemma np_nanvar_few (a : list F) :
  length (filter notnan a) <= 1 -> np_nanvar 1 a = nan.
Proof.
  intros H. unfold np_nanvar.
  destruct (Z.of_nat (length (filter notnan a)) - Z.of_nat 1 <=? 0)%Z eqn:E; [reflexivity|].
  apply Z.leb_gt in E. lia.
Qed.

End Insufficient.

Section B64Sharpe.
Import B64.

(** With at most one value present the volatility is undefined, and so is the
    Sharpe ratio, for a scalar risk-free rate and for a series of the same
    length (of observations, with at most one date on which both are
    present): the function returns NaN and raises nothing. *)
Theorem sharpe_ratio_too_few_observations :
  (forall returns : list spec_float,
     length (filter notnan returns) <= 1 ->
     volatility returns = nan /\
     forall (pow_F : Pow spec_float) (r : spec_float),
       sharpe_ratio returns (Scalar r) = Some nan)
  /\
  (forall (pow_F : Pow spec_float) (returns rs : list spec_float),
     length returns = length rs ->
     Forall (fun r => is_obs r = true) returns ->
     Forall (fun r => is_obs r = true) rs ->
     length (usable_pairs returns rs) <= 1 ->
     sharpe_ratio returns (Series rs) = Some nan).
Proof.
  assert (V : forall l : list spec_float,
            length (filter notnan l) <= 1 -> volatility l = nan).
  { intros l H. unfold volatility, np_nanstd. now rewrite (np_nanvar_few l H). }
  split.
  - intros returns H. split; [now apply V|].
    intros pow_F r. unfold sharpe_ratio, sharpe_of. now rewrite (V returns H).
  - intros pow_F returns rs E Hr Hs H. unfold sharpe_ratio.
    rewrite (broadcast_same_length returns rs E).
    unfold sharpe_of. rewrite V; [reflexivity|].
    rewrite (active_returns_usable returns rs Hr Hs). now rewrite length_map.
Qed.

Lemma sharpe_ratio_too_few_observations_witness :
  volatility [S754_nan; dec 1 100; S754_nan] = S754_nan /\
  @sharpe_ratio _ _ _ pow_unit_exponent [dec 1 100; dec 2 100; S754_nan]
     (Series [S754_nan; dec 1 1000; dec 1 1000]) = Some S754_nan.
Proof.
  destruct sharpe_ratio_too_few_observations as [H1 H2]. split.
  - apply (H1 [S754_nan; dec 1 100; S754_nan]). cbn. lia.
  - apply (H2 pow_unit_exponent [dec 1 100; dec 2 100; S754_nan]
              [S754_nan; dec 1 1000; dec 1 1000]).
    + reflexivity.
    + repeat constructor.
    + repeat constructor.
    + cbn. lia.
Defined.

Lemma SFsub_zero_r (x : spec_float) : SFsub prec emax x (S754_zero false) = x.
Proof. destruct x as [s| | |]; try reflexivity. now destruct s. Qed.

Lemma excess_over_zero (returns : list spec_float) :
  map (fun p => (fst p - snd p)%flt) (combine returns (repeat zero (length returns))) = returns.
Proof.
  induction returns as [|x l IH]; [reflexivity|].
  cbn [length repeat combine map fst snd]. rewrite IH. f_equal. apply SFsub_zero_r.
Qed.

(** A risk-free series of zeros gives the same Sharpe ratio as the scalar 0,
    bit for bit: subtracting 0 pointwise before annualizing and subtracting
    it after annualizing both change nothing. *)
Theorem sharpe_ratio_zero_rate_branches_agree
  (pow_F : Pow spec_float) (returns : list spec_float) :
  sharpe_ratio returns (Series (repeat zero (length returns))) =
  sharpe_ratio returns (Scalar zero).
Proof.
  unfold sharpe_ratio.
  rewrite (broadcast_same_length returns (repeat zero (length returns)))
    by (now rewrite repeat_length).
  rewrite excess_over_zero.
  change (annualized_return returns - zero)%flt
    with (SFsub prec emax (annualized_return returns) (S754_zero false)).
  now rewrite SFsub_zero_r.
Qed.

Lemma np_prod_ones (n : nat) : np_prod (repeat (one : spec_float) n) = one.
Proof.
  unfold np_prod.
  assert (H : forall acc, acc = one -> fold_left fmul (repeat (one : spec_float) n) acc = one).
  { induction n as [|n IH]; intros acc ->; cbn [repeat fold_left]; auto. }
  now apply H.
Qed.

(** A series whose present values are all zero has an annualized return of
    exactly 0, for every [pow] with [pow(1, y) = 1]. *)
Theorem annualized_return_flat (pow_F : Pow spec_float) (returns : list spec_float) :
  (forall y : spec_float, fpow one y = one) ->
  (exists r, In r returns /\ fisnan r = false) ->
  (forall r, In r returns -> fisnan r = false -> is_zero r = true) ->
  annualized_return returns = S754_zero false.
Proof.
  intros Hpow Hex Hz. unfold annualized_return.
  rewrite (filter_notnan_nonempty returns Hex).
  assert (E : map (fun r => (one + r)%flt) (filter notnan returns) =
              repeat one (length (filter notnan returns))).
  { assert (Hl : Forall (fun r => is_zero r = true) (filter notnan returns)).
    { apply Forall_forall. intros r Hin. apply filter_In in Hin. destruct Hin as [Hin Hn].
      apply Hz; auto. unfold notnan in Hn. now destruct (fisnan r). }
    induction Hl as [|r l Hr Hl IH]; [reflexivity|].
    cbn [map length repeat]. rewrite IH. f_equal.
    destruct r; try discriminate. reflexivity. }
  rewrite E, np_prod_ones, Hpow. reflexivity.
Qed.

Lemma annualized_return_flat_witness :
  @annualized_return _ _ (fun x y => if (x == one)%flt then one else S754_nan)
     [S754_zero false; S754_nan; S754_zero true; S754_zero false] = S754_zero false.
Proof.
  apply annualized_return_flat.
  - intros y. reflexivity.
  - exists (S754_zero false). split; [simpl; tauto|reflexivity].
  - intros r [E|[E|[E|[E|[]]]]] Hr; subst r; try discriminate Hr; reflexivity.
Defined.

End B64Sharpe.
